(** * retry: a retry loop with pluggable limiters and timers

    Shallow embedding of [retry.go] (package [retry]) and the properties of
    its loop, its limiters and its timers.

    Go closures are embedded as explicit state passing over a world state:
    a closure that captures a variable ([c] in [Counts], [dur] in
    [MultiplicativeBackoff]) is a transition on the part of the world that
    holds this variable.  Every call of a closure is assumed to return. *)

From Stdlib Require Import ZArith List Bool Lia.
Import ListNotations.

Local Open Scope Z_scope.

(** ** Machine integers

    [int] (on 64-bit targets) and [time.Duration] (an [int64] count of
    nanoseconds) are signed 64-bit integers whose arithmetic wraps around. *)
Module Int64.

Definition modulus : Z := 2 ^ 64.
Definition min_int : Z := - 2 ^ 63.
Definition max_int : Z := 2 ^ 63 - 1.

Definition in_range (z : Z) : Prop := min_int <= z <= max_int.

(** Two's complement wrap-around of a mathematical integer. *)
Definition wrap (z : Z) : Z := (z - min_int) mod modulus + min_int.

Definition add (a b : Z) : Z := wrap (a + b).
Definition mul (a b : Z) : Z := wrap (a * b).

End Int64.

(** ** Closures of the package *)

Section Closures.

(** [E] is the type of non-nil error values: Go's [error] is [nil] or one of
    them.  [St] is the state of the world the closures act on. *)
Context {E : Type}.

Definition error : Type := option E.

(** [type Worker func() error] *)
Definition Worker (St : Type) : Type := St -> error * St.

(** [type Limiter func(error) bool] *)
Definition Limiter (St : Type) : Type := error -> St -> bool * St.

(** [type Timer func()] *)
Definition Timer (St : Type) : Type := St -> St.

(** What a run of the loop has produced when its fuel is spent or before:
    [Returned err s] is [return err] in world [s]; [Running s] is a loop
    that has just been told by the limiter to go on and has no fuel left for
    the next iteration. *)
Inductive outcome (St : Type) : Type :=
| Returned (err : error) (s : St)
| Running (s : St).

Arguments Returned {St} err s.
Arguments Running {St} s.

Definition outcome_state {St : Type} (o : outcome St) : St :=
  match o with
  | Returned _ s => s
  | Running s => s
  end.

Definition outcome_map {A B : Type} (f : A -> B) (o : outcome A) : outcome B :=
  match o with
  | Returned err s => Returned err (f s)
  | Running s => Running (f s)
  end.

Section RetryLoop.

Context {St : Type}.
Variable worker : Worker St.
Variable limiter : Limiter St.
Variable timer : Timer St.

(** [for err != nil && limiter(err) { timer(); err = worker() }; return err]
    entered with the current [err]; [fuel] bounds the number of times the
    body is run.  The limiter is not evaluated when [err] is nil ([&&]). *)
Fixpoint Retry_loop (fuel : nat) (err : error) (s : St) {struct fuel} : outcome St :=
  match err with
  | None => Returned None s
  | Some _ =>
      let (continue, s1) := limiter err s in
      if continue then
        match fuel with
        | O => Running s1
        | S fuel' =>
            let s2 := timer s1 in
            let (err', s3) := worker s2 in
            Retry_loop fuel' err' s3
        end
      else Returned err s1
  end.

(** [func Retry(worker Worker, limiter Limiter, timer Timer) error] *)
Definition Retry (fuel : nat) (s : St) : outcome St :=
  let (err, s1) := worker s in
  Retry_loop fuel err s1.

End RetryLoop.

(** ** Limiters *)

(** The cancellation signal of a [context.Context], as the loop observes it:
    [ctx s] says whether the channel [ctx.Done()] is closed in world [s]. *)
Definition Context (St : Type) : Type := St -> bool.

(** [CancelableLimiter]: the [select] with a [default] branch is a
    non-blocking receive on [ctx.Done()]. *)
Definition CancelableLimiter {St : Type} (ctx : Context St) (limiter : Limiter St)
  : Limiter St :=
  fun err s =>
    if ctx s then (false, s)
    else limiter err s.

(** [Once] *)
Definition Once {St : Type} : Limiter St :=
  fun _ s => (false, s).

(** [Forever] *)
Definition Forever {St : Type} : Limiter St :=
  fun _ s => (true, s).

(** [UntilCanceled] *)
Definition UntilCanceled {St : Type} (ctx : Context St) : Limiter St :=
  CancelableLimiter ctx Forever.

(** [Counts]: the captured variable [c] starts at 1. *)
Definition Counts_init : Z := 1.

(** The closure returned by [Counts(max)], on its captured [c].  The body of
    [for c < max { c++; return true }] returns in its first iteration. *)
Definition Counts (max : Z) : Limiter Z :=
  fun _ c =>
    if c <? max then (true, Int64.add c 1)
    else (false, c).

End Closures.

Arguments Returned {E St} err s.
Arguments Running {E St} s.

(** ** Observing the calls of a run

    The calls a run makes are observed the way a test would: each closure is
    wrapped in one that appends an event to a log kept next to the world. *)

Section Observation.

Context {E : Type}.

Inductive Event : Type :=
| EvWorker (result : @error E)
| EvLimiter (arg : @error E) (continue : bool)
| EvTimer.

Definition Trace : Type := list Event.

Context {St : Type}.

Definition spy_worker (worker : Worker St) : Worker (St * Trace) :=
  fun st =>
    let (r, s') := worker (fst st) in
    (r, (s', snd st ++ [EvWorker r])).

Definition spy_limiter (limiter : Limiter St) : Limiter (St * Trace) :=
  fun err st =>
    let (b, s') := limiter err (fst st) in
    (b, (s', snd st ++ [EvLimiter err b])).

Definition spy_timer (timer : Timer St) : Timer (St * Trace) :=
  fun st => (timer (fst st), snd st ++ [EvTimer]).

(** [Retry] with its three arguments observed, started on an empty log. *)
Definition Retry_observed (worker : Worker St) (limiter : Limiter St)
    (timer : Timer St) (fuel : nat) (s : St) : @outcome E (St * Trace) :=
  Retry (spy_worker worker) (spy_limiter limiter) (spy_timer timer) fuel (s, []).

Definition trace_of (o : @outcome E (St * Trace)) : Trace := snd (outcome_state o).

Definition is_worker (ev : Event) : bool :=
  match ev with EvWorker _ => true | _ => false end.

Definition is_limiter (ev : Event) : bool :=
  match ev with EvLimiter _ _ => true | _ => false end.

Definition is_timer (ev : Event) : bool :=
  match ev with EvTimer => true | _ => false end.

Definition calls (p : Event -> bool) (tr : Trace) : nat := length (filter p tr).

(** [follows a b]: the loop may call [b] right after [a]. *)
Definition follows (a b : Event) : Prop :=
  match a, b with
  | EvWorker (Some e), EvLimiter arg _ => arg = Some e
  | EvLimiter _ true, EvTimer => True
  | EvTimer, EvWorker _ => True
  | _, _ => False
  end.

(** Every two adjacent events of the trace are related by [follows]. *)
Fixpoint linked (tr : Trace) : Prop :=
  match tr with
  | a :: (b :: _) as rest => follows a b /\ linked rest
  | _ => True
  end.

(** Limiter checks and timer calls taken alone alternate, the next one
    being a limiter check iff [limiter_next]. *)
Fixpoint alternating (limiter_next : bool) (tr : Trace) : bool :=
  match tr with
  | [] => true
  | EvWorker _ :: tr' => alternating limiter_next tr'
  | EvLimiter _ _ :: tr' => limiter_next && alternating false tr'
  | EvTimer :: tr' => negb limiter_next && alternating true tr'
  end.

(** The result of the last call of the worker in the trace. *)
Fixpoint last_worker_result (tr : Trace) : option (@error E) :=
  match tr with
  | [] => None
  | ev :: tr' =>
      match last_worker_result tr' with
      | Some r => Some r
      | None => match ev with EvWorker r => Some r | _ => None end
      end
  end.

(** The last events of the trace of a run that ended as [o]. *)
Definition ends_as (o : @outcome E (St * Trace)) : Prop :=
  match o with
  | Returned None st => exists pre, snd st = pre ++ [EvWorker None]
  | Returned (Some e) st =>
      exists pre, snd st = pre ++ [EvWorker (Some e); EvLimiter (Some e) false]
  | Running st => exists pre e, snd st = pre ++ [EvLimiter e true]
  end.

(** The observed loop, entered with the current [err]. *)
Definition loop_observed (worker : Worker St) (limiter : Limiter St)
    (timer : Timer St) : nat -> @error E -> St * Trace -> @outcome E (St * Trace) :=
  Retry_loop (spy_worker worker) (spy_limiter limiter) (spy_timer timer).

(** What holds of the log each time the loop condition is evaluated, with
    [err] the result of the call of the worker that was just made. *)
Definition at_condition (tr : Trace) (err : @error E) : Prop :=
  linked tr
  /\ (exists r rest, tr = EvWorker r :: rest)
  /\ calls is_worker tr = S (calls is_timer tr)
  /\ exists pre, tr = pre ++ [EvWorker err].

(** What holds of the log of a run that has stopped as [o]. *)
Definition at_exit (o : @outcome E (St * Trace)) : Prop :=
  linked (trace_of o)
  /\ (exists r rest, trace_of o = EvWorker r :: rest)
  /\ calls is_worker (trace_of o) = S (calls is_timer (trace_of o))
  /\ ends_as o.

End Observation.

(** ** Worlds made of parts

    A closure that owns a captured variable acts on that part of the world
    and leaves the rest alone. *)

Section Parts.

Context {E A B : Type}.

Definition worker_on_fst (w : @Worker E A) : @Worker E (A * B) :=
  fun st => let (r, a) := w (fst st) in (r, (a, snd st)).

Definition timer_on_fst (t : Timer A) : Timer (A * B) :=
  fun st => (t (fst st), snd st).

Definition limiter_on_snd (l : @Limiter E B) : @Limiter E (A * B) :=
  fun err st => let (b, c) := l err (snd st) in (b, (fst st, c)).

Definition context_on_fst (ctx : Context A) : Context (A * B) :=
  fun st => ctx (fst st).

End Parts.

(** ** Timers *)

(** How the [select] of a cancelable timer was woken. *)
Inductive wake : Type :=
| TimerFired   (* [case <-timer.C] *)
| Canceled.    (* [case <-ctx.Done()], followed by [timer.Stop()] *)

(** [CancelableSleep(ctx, dur)]: a wait of [dur] and what ended it. *)
Definition CancelableSleep (dur : Z) (w : wake) : Timer (list (Z * wake)) :=
  fun waits => waits ++ [(dur, w)].

(** The world of a [MultiplicativeBackoff] closure: its captured [dur] and
    the durations passed to [time.Sleep] so far. *)
Record Backoff : Type := mkBackoff { dur : Z; slept : list Z }.

Definition MultiplicativeBackoff_init (base : Z) : Backoff :=
  {| dur := base; slept := [] |}.

(** The closure returned by [MultiplicativeBackoff(base, ceil)]. *)
Definition MultiplicativeBackoff (ceil : Z) : Timer Backoff :=
  fun st =>
    let log := slept st ++ [dur st] in               (* time.Sleep(dur) *)
    if negb (dur st =? ceil) then
      let d := Int64.mul (dur st) 2 in
      if d >? ceil then {| dur := ceil; slept := log |}
      else {| dur := d; slept := log |}
    else {| dur := dur st; slept := log |}.

(** The world of a [CancelableMultiplicativeBackoff] closure: its captured
    [dur] and, for each call, the duration of the timer it created and what
    woke the [select]. *)
Record CBackoff : Type := mkCBackoff { cdur : Z; waited : list (Z * wake) }.

Definition CancelableMultiplicativeBackoff_init (base : Z) : CBackoff :=
  {| cdur := base; waited := [] |}.

(** The closure returned by [CancelableMultiplicativeBackoff(ctx, base, ceil)];
    [w] is the branch of the [select] that is taken in this call. *)
Definition CancelableMultiplicativeBackoff (ceil : Z) (w : wake) : Timer CBackoff :=
  fun st =>
    let log := waited st ++ [(cdur st, w)] in
    if negb (cdur st =? ceil) then
      let d := Int64.mul (cdur st) 2 in
      if d >? ceil then {| cdur := ceil; waited := log |}
      else {| cdur := d; waited := log |}
    else {| cdur := cdur st; waited := log |}.

(** [var CMB = CancelableMultiplicativeBackoff] *)
Definition CMB : Z -> wake -> Timer CBackoff := CancelableMultiplicativeBackoff.

(** [n] successive calls of a timer. *)
Definition calls_of {St : Type} (t : Timer St) (n : nat) (s : St) : St :=
  Nat.iter n t s.

(** Successive calls of a cancelable backoff, one per wake-up in [ws]. *)
Definition cancelable_calls (ceil : Z) (ws : list wake) (s : CBackoff) : CBackoff :=
  fold_left (fun st w => CancelableMultiplicativeBackoff ceil w st) ws s.

(** ** Runs of the package's closures *)

(** [Retry(worker, Counts(max), timer)], observed: the world is the state
    [s] that the worker and the timer act on, next to the counter captured
    by the limiter, which no one else can reach. *)
Definition Retry_Counts {E St : Type} (worker : @Worker E St) (timer : Timer St)
    (max : Z) (fuel : nat) (s : St) : @outcome E ((St * Z) * @Trace E) :=
  Retry_observed (worker_on_fst worker) (limiter_on_snd (Counts max))
    (timer_on_fst timer) fuel (s, Counts_init).

(** The answers of a [Counts(max)] limiter whose counter is [c] to
    successive calls, one per error in [errs], and the counter after them. *)
Fixpoint Counts_run {E : Type} (max : Z) (errs : list (@error E)) (c : Z)
  : list bool * Z :=
  match errs with
  | [] => ([], c)
  | err :: errs' =>
      let (b, c1) := Counts max err c in
      let (bs, c2) := Counts_run max errs' c1 in
      (b :: bs, c2)
  end.

(** Workers used as examples: [flaky k] fails [k] times, with the number of
    the attempt as its error, and succeeds from then on; [failing] always
    fails.  Their state is the number of calls made so far. *)
Definition flaky (k : nat) : @Worker nat nat :=
  fun n => if (n <? k)%nat then (Some n, S n) else (None, S n).

Definition failing : @Worker nat nat :=
  fun n => (Some n, S n).

(** The specification's reading of [UntilCanceled]: false if cancellation
    has occurred, true otherwise, whatever the error. *)
Definition UntilCanceled_spec {E St : Type} (ctx : Context St) : @Limiter E St :=
  fun _ s => (negb (ctx s), s).

(** The specification's state machine of a backoff timer:
    [delay' = min(delay*2, ceiling)] unless [delay = ceiling], over the
    integers. *)
Definition schedule_spec (ceil delay : Z) : Z :=
  if delay =? ceil then ceil else Z.min (delay * 2) ceil.

(** A cancelable backoff seen as a backoff: its stored delay and the
    durations of the timers it created. *)
Definition as_backoff (st : CBackoff) : Backoff :=
  {| dur := cdur st; slept := map fst (waited st) |}.

(** A timer that does nothing. *)
Definition no_wait {St : Type} : Timer St := fun s => s.

(** ** More observations and worlds *)

(** A failed attempt, and a limiter check that says to go on. *)
Definition is_failure {E : Type} (ev : @Event E) : bool :=
  match ev with EvWorker (Some _) => true | _ => false end.

Definition is_continue {E : Type} (ev : @Event E) : bool :=
  match ev with EvLimiter _ true => true | _ => false end.

(** A timer that owns the second part of the world. *)
Definition timer_on_snd {A B : Type} (t : Timer B) : Timer (A * B) :=
  fun st => (fst st, t (snd st)).

(** [Retry] given a [Counts(max)] limiter whose counter is already at [c]:
    a limiter that has been used before. *)
Definition Retry_Counts_from {E St : Type} (worker : @Worker E St)
    (timer : Timer St) (max : Z) (fuel : nat) (s : St) (c : Z)
  : @outcome E ((St * Z) * @Trace E) :=
  Retry_observed (worker_on_fst worker) (limiter_on_snd (Counts max))
    (timer_on_fst timer) fuel (s, c).

(** [Retry] with a cancelable limiter whose inner limiter is observed. *)
Definition Retry_cancelable_observed {E St : Type} (worker : @Worker E St)
    (ctx : Context St) (inner : @Limiter E St) (timer : Timer St)
    (fuel : nat) (s : St) : @outcome E (St * @Trace E) :=
  Retry (spy_worker worker)
    (CancelableLimiter (context_on_fst ctx) (spy_limiter inner))
    (spy_timer timer) fuel (s, []).

(** The delay [min(base * 2^k, ceil)] over the integers. *)
Definition backoff_delay (base ceil : Z) (k : nat) : Z :=
  Z.min (base * 2 ^ Z.of_nat k) ceil.

(** * Properties *)

(** ** Machine integers *)

Lemma wrap_in_range (z : Z) : Int64.in_range z -> Int64.wrap z = z.
Proof.
  unfold Int64.in_range, Int64.wrap, Int64.min_int, Int64.max_int, Int64.modulus.
  intros H. rewrite Z.mod_small; lia.
Qed.

(** ** Traces of the retry loop *)

Section TraceFacts.

Context {E : Type}.

Lemma linked_snoc (tr : @Trace E) (a b : @Event E) :
  linked (tr ++ [a]) -> follows a b -> linked (tr ++ [a; b]).
Proof.
  induction tr as [| x tr IH]; simpl; intros Hl Hf.
  - tauto.
  - destruct tr as [| y tr]; simpl in *.
    + tauto.
    + destruct Hl as [Hxy Hl]. split; [exact Hxy | exact (IH Hl Hf)].
Qed.

Lemma linked_adjacent (pre post : @Trace E) (a b : @Event E) :
  linked (pre ++ a :: b :: post) -> follows a b.
Proof.
  induction pre as [| x pre IH]; simpl; intros Hl.
  - tauto.
  - destruct pre as [| y pre]; simpl in *; apply IH; tauto.
Qed.

Lemma calls_snoc (p : @Event E -> bool) (tr : @Trace E) (ev : @Event E) :
  calls p (tr ++ [ev]) = (calls p tr + (if p ev then 1 else 0))%nat.
Proof.
  unfold calls. rewrite filter_app, length_app. simpl.
  destruct (p ev); reflexivity.
Qed.

Lemma snoc_inj (l1 l2 : @Trace E) (a b : @Event E) :
  l1 ++ [a] = l2 ++ [b] -> l1 = l2 /\ a = b.
Proof. apply app_inj_tail. Qed.

Lemma before_event (tr pre post : @Trace E) (b : @Event E) :
  linked tr -> tr = pre ++ b :: post ->
  pre = [] \/ exists pre' a, pre = pre' ++ [a] /\ follows a b.
Proof.
  intros Hl ->. destruct pre as [| a pre _] using rev_ind.
  - left; reflexivity.
  - right. exists pre, a. split; [reflexivity |].
    rewrite <- app_assoc in Hl. exact (linked_adjacent _ _ _ _ Hl).
Qed.

Lemma after_event (tr pre post : @Trace E) (a : @Event E) :
  linked tr -> tr = pre ++ a :: post ->
  post = [] \/ exists b post', post = b :: post' /\ follows a b.
Proof.
  intros Hl ->. destruct post as [| b post].
  - left; reflexivity.
  - right. exists b, post. split; [reflexivity |].
    exact (linked_adjacent _ _ _ _ Hl).
Qed.

Lemma linked_alternating (tr : @Trace E) :
  linked tr ->
  match tr with
  | [] => True
  | EvTimer :: _ => alternating false tr = true
  | _ :: _ => alternating true tr = true
  end.
Proof.
  induction tr as [| a tr IH]; [trivial |]. intros Hl.
  destruct tr as [| b tr].
  - destruct a; reflexivity.
  - destruct Hl as [Hf Hl]. specialize (IH Hl).
    destruct a as [[e |] | arg [|] |], b as [r | arg' c |];
      simpl in Hf; try contradiction; simpl in *; exact IH.
Qed.

Lemma last_worker_result_snoc (tr : @Trace E) (ev : @Event E) :
  last_worker_result (tr ++ [ev]) =
  match ev with
  | EvWorker r => Some r
  | _ => last_worker_result tr
  end.
Proof.
  induction tr as [| x tr IH]; simpl.
  - destruct ev; reflexivity.
  - rewrite IH. destruct ev; try reflexivity.
Qed.

End TraceFacts.

Section RetryFacts.

Context {E St : Type}.
Variable worker : @Worker E St.
Variable limiter : @Limiter E St.
Variable timer : Timer St.

Lemma head_snoc (tr : @Trace E) (ev : @Event E) :
  (exists r rest, tr = EvWorker r :: rest) ->
  exists r rest, tr ++ [ev] = EvWorker r :: rest.
Proof.
  intros (r & rest & ->). exists r, (rest ++ [ev]). reflexivity.
Qed.

Lemma loop_at_exit (fuel : nat) :
  forall err s tr,
    at_condition tr err ->
    at_exit (loop_observed worker limiter timer fuel err (s, tr)).
Proof.
  unfold loop_observed.
  induction fuel as [| fuel IH]; intros err s tr (Hl & Hh & Hc & pre & Hp);
    (destruct err as [e |]; simpl;
     [ unfold spy_limiter; simpl; destruct (limiter (Some e) s) as [[|] s1]
     | repeat split; auto; exists pre; exact Hp ]).
  - (* out of fuel after the limiter said to go on *)
    repeat split; unfold trace_of; simpl.
    + subst tr. rewrite <- app_assoc. apply linked_snoc; simpl; auto.
    + apply head_snoc; exact Hh.
    + rewrite !calls_snoc; simpl. lia.
    + exists tr, (Some e). reflexivity.
  - (* the limiter stops the loop *)
    repeat split; unfold trace_of; simpl.
    + subst tr. rewrite <- app_assoc. apply linked_snoc; simpl; auto.
    + apply head_snoc; exact Hh.
    + rewrite !calls_snoc; simpl. lia.
    + exists pre. subst tr. rewrite <- app_assoc. reflexivity.
  - (* one more iteration: timer, then worker *)
    unfold spy_timer, spy_worker; simpl.
    destruct (worker (timer s1)) as [r s3]. apply IH.
    assert (Hl1 : linked (tr ++ [EvLimiter (Some e) true])).
    { subst tr. rewrite <- app_assoc. apply linked_snoc; simpl; auto. }
    assert (Hl2 : linked ((tr ++ [EvLimiter (Some e) true]) ++ [EvTimer])).
    { rewrite <- app_assoc. apply linked_snoc; simpl; auto. }
    repeat split.
    + rewrite <- app_assoc. apply linked_snoc; simpl; auto.
    + do 3 apply head_snoc. exact Hh.
    + rewrite !calls_snoc; simpl. lia.
    + eexists. reflexivity.
  - repeat split; unfold trace_of; simpl.
    + subst tr. rewrite <- app_assoc. apply linked_snoc; simpl; auto.
    + apply head_snoc; exact Hh.
    + rewrite !calls_snoc; simpl. lia.
    + exists pre. subst tr. rewrite <- app_assoc. reflexivity.
Qed.

Lemma Retry_at_exit (fuel : nat) (s : St) :
  at_exit (Retry_observed worker limiter timer fuel s).
Proof.
  unfold Retry_observed, Retry, spy_worker. simpl.
  destruct (worker s) as [err s1]. apply loop_at_exit.
  repeat split; simpl; auto.
  - exists err, []. reflexivity.
  - exists []. reflexivity.
Qed.

(** Observing a run does not change it. *)
Lemma loop_observed_erase (fuel : nat) :
  forall err s tr,
    outcome_map fst (loop_observed worker limiter timer fuel err (s, tr)) =
    Retry_loop worker limiter timer fuel err s.
Proof.
  unfold loop_observed.
  induction fuel as [| fuel IH]; intros err s tr;
    (destruct err as [e |]; simpl; [| reflexivity]);
    unfold spy_limiter; simpl; destruct (limiter (Some e) s) as [[|] s1];
    simpl; try reflexivity.
  unfold spy_timer, spy_worker; simpl.
  destruct (worker (timer s1)) as [r s3]. apply IH.
Qed.

Lemma Retry_observed_erase (fuel : nat) (s : St) :
  outcome_map fst (Retry_observed worker limiter timer fuel s) =
  Retry worker limiter timer fuel s.
Proof.
  unfold Retry_observed, Retry, spy_worker. simpl.
  destruct (worker s) as [err s1]. apply loop_observed_erase.
Qed.

(** A run never stops right after a call of the timer. *)
Lemma ends_as_not_timer (o : @outcome E (St * @Trace E)) (pre : @Trace E) :
  ends_as o -> trace_of o <> pre ++ [EvTimer].
Proof.
  unfold trace_of. intros He Heq.
  destruct o as [[e |] st | st]; simpl in *.
  - destruct He as (front & He). rewrite He in Heq.
    change (front ++ [EvWorker (Some e); EvLimiter (Some e) false])
      with (front ++ [EvWorker (Some e)] ++ [EvLimiter (Some e) false]) in Heq.
    rewrite app_assoc in Heq. apply snoc_inj in Heq. destruct Heq; discriminate.
  - destruct He as (front & He). rewrite He in Heq.
    apply snoc_inj in Heq. destruct Heq; discriminate.
  - destruct He as (front & e & He). rewrite He in Heq.
    apply snoc_inj in Heq. destruct Heq; discriminate.
Qed.

(** C1. For every worker, limiter and timer, and however long the loop is
    left to run, the calls made by [Retry] obey the following discipline.
    The worker is called once before the loop and once in each iteration
    (there is one iteration per timer call): each call of the worker is the
    first call of the run or comes right after a timer call, and each timer
    call is followed at once by a call of the worker.  The limiter is only
    evaluated right after a failed attempt, on the error of that attempt.
    The timer is only called right after the limiter returned true, so
    nothing is called after the limiter returned false or after an attempt
    that succeeded.  Limiter checks and timer calls alternate strictly: no
    two consecutive timer calls, no two consecutive limiter checks. *)
Theorem Retry_call_discipline (fuel : nat) (s : St) :
  let tr := trace_of (Retry_observed worker limiter timer fuel s) in
  calls is_worker tr = S (calls is_timer tr)
  /\ (forall pre r post, tr = pre ++ EvWorker r :: post ->
        pre = [] \/ exists pre', pre = pre' ++ [EvTimer])
  /\ (forall pre post, tr = pre ++ EvTimer :: post ->
        exists r post', post = EvWorker r :: post')
  /\ (forall pre arg b post, tr = pre ++ EvLimiter arg b :: post ->
        exists pre' e, pre = pre' ++ [EvWorker (Some e)] /\ arg = Some e)
  /\ (forall pre post, tr = pre ++ EvTimer :: post ->
        exists pre' arg, pre = pre' ++ [EvLimiter arg true])
  /\ (forall pre arg post, tr = pre ++ EvLimiter arg false :: post -> post = [])
  /\ (forall pre post, tr = pre ++ EvWorker None :: post -> post = [])
  /\ (forall pre post, tr <> pre ++ EvTimer :: EvTimer :: post)
  /\ (forall pre a b a' b' post,
        tr <> pre ++ EvLimiter a b :: EvLimiter a' b' :: post)
  /\ alternating true tr = true.
Proof.
  intros tr.
  destruct (Retry_at_exit fuel s) as (Hl & (r0 & rest0 & Hh) & Hc & He).
  fold tr in Hl, Hh, Hc.
  repeat match goal with |- _ /\ _ => split end.
  - exact Hc.
  - intros pre r post Heq.
    destruct (before_event _ _ _ _ Hl Heq) as [-> | (pre' & a & -> & Hf)];
      [left; reflexivity | right].
    exists pre'. destruct a as [[e |] | arg [|] |]; simpl in Hf;
      try contradiction. reflexivity.
  - intros pre post Heq.
    destruct (after_event _ _ _ _ Hl Heq) as [-> | (b & post' & -> & Hf)].
    + exfalso. exact (ends_as_not_timer _ pre He Heq).
    + destruct b as [r | arg c |]; simpl in Hf; try contradiction.
      exists r, post'. reflexivity.
  - intros pre arg b post Heq.
    destruct (before_event _ _ _ _ Hl Heq) as [-> | (pre' & a & -> & Hf)].
    + rewrite Hh in Heq. discriminate.
    + destruct a as [[e |] | arg' [|] |]; simpl in Hf; try contradiction.
      exists pre', e. split; [reflexivity | exact Hf].
  - intros pre post Heq.
    destruct (before_event _ _ _ _ Hl Heq) as [-> | (pre' & a & -> & Hf)].
    + rewrite Hh in Heq. discriminate.
    + destruct a as [[e |] | arg' [|] |]; simpl in Hf; try contradiction.
      exists pre', arg'. reflexivity.
  - intros pre arg post Heq.
    destruct (after_event _ _ _ _ Hl Heq) as [-> | (b & post' & _ & Hf)];
      [reflexivity | destruct b; contradiction].
  - intros pre post Heq.
    destruct (after_event _ _ _ _ Hl Heq) as [-> | (b & post' & _ & Hf)];
      [reflexivity | destruct b; contradiction].
  - intros pre post Heq. rewrite Heq in Hl.
    exact (linked_adjacent _ _ _ _ Hl).
  - intros pre a b a' b' post Heq. rewrite Heq in Hl.
    apply linked_adjacent in Hl. destruct b; exact Hl.
  - generalize (linked_alternating tr Hl). rewrite Hh. trivial.
Qed.

(** C2. When the first call of the worker succeeds, [Retry] returns nil
    after this single call: the worker has been called exactly once, the
    limiter and the timer not at all, whatever they are. *)
Theorem Retry_first_success (fuel : nat) (s s' : St) :
  worker s = (None, s') ->
  Retry_observed worker limiter timer fuel s = Returned None (s', [EvWorker None])
  /\ Retry worker limiter timer fuel s = Returned None s'.
Proof.
  intros Hw. unfold Retry_observed, Retry, spy_worker. simpl. rewrite Hw.
  destruct fuel; split; reflexivity.
Qed.

Lemma Retry_observed_last (fuel : nat) (s : St)
    (err : @error E) (st : St * @Trace E) :
  Retry_observed worker limiter timer fuel s = Returned err st ->
  last_worker_result (snd st) = Some err.
Proof.
  intros Hr. destruct (Retry_at_exit fuel s) as (_ & _ & _ & He).
  rewrite Hr in He. destruct err as [e |]; simpl in He.
  - destruct He as (pre & ->).
    change (pre ++ [EvWorker (Some e); EvLimiter (Some e) false])
      with (pre ++ [EvWorker (Some e)] ++ [EvLimiter (Some e) false]).
    rewrite app_assoc, !last_worker_result_snoc. reflexivity.
  - destruct He as (pre & ->). rewrite last_worker_result_snoc. reflexivity.
Qed.

Lemma snoc2_inj (l1 l2 : @Trace E) (a b c d : @Event E) :
  l1 ++ [a; b] = l2 ++ [c; d] -> a = c /\ b = d.
Proof.
  change (l1 ++ [a; b]) with (l1 ++ [a] ++ [b]).
  change (l2 ++ [c; d]) with (l2 ++ [c] ++ [d]).
  rewrite !app_assoc. intros H.
  apply snoc_inj in H. destruct H as [H ->].
  apply snoc_inj in H. destruct H as [_ ->]. split; reflexivity.
Qed.

(** C7. When the loop ends without success, that is when the last attempt
    failed with [e] and the limiter then said to stop, [Retry] returns this
    [e], as it is; and when the last attempt succeeded, [Retry] returns nil,
    whatever happened in the attempts before.  Conversely whatever [Retry]
    returns is the result of the last call of the worker. *)
Theorem Retry_returns_last_result (fuel : nat) (s : St) :
  let o := Retry_observed worker limiter timer fuel s in
  (forall pre e,
     trace_of o = pre ++ [EvWorker (Some e); EvLimiter (Some e) false] ->
     o = Returned (Some e) (outcome_state o)
     /\ Retry worker limiter timer fuel s
        = Returned (Some e) (fst (outcome_state o)))
  /\ (forall pre,
        trace_of o = pre ++ [EvWorker None] ->
        o = Returned None (outcome_state o)
        /\ Retry worker limiter timer fuel s
           = Returned None (fst (outcome_state o)))
  /\ (forall err st,
        o = Returned err st ->
        last_worker_result (snd st) = Some err
        /\ Retry worker limiter timer fuel s = Returned err (fst st)).
Proof.
  cbv zeta.
  pose proof (Retry_at_exit fuel s) as (_ & _ & _ & He).
  pose proof (Retry_observed_erase fuel s) as Her.
  pose proof (Retry_observed_last fuel s) as Hlast.
  destruct (Retry_observed worker limiter timer fuel s) as [[e0 |] st0 | st0];
    unfold trace_of; simpl in *.
  - (* returned an error *)
    destruct He as (pre0 & He). split; [| split].
    + intros pre e Htr. rewrite He in Htr. apply snoc2_inj in Htr.
      destruct Htr as [Hw _]. injection Hw as ->.
      split; [reflexivity | symmetry; exact Her].
    + intros pre Htr. rewrite He in Htr.
      change (pre0 ++ [EvWorker (Some e0); EvLimiter (Some e0) false])
        with (pre0 ++ [EvWorker (Some e0)] ++ [EvLimiter (Some e0) false]) in Htr.
      rewrite app_assoc in Htr. apply snoc_inj in Htr.
      destruct Htr as [_ Htr]. discriminate.
    + intros err st Hr. injection Hr as <- <-.
      split; [apply Hlast; reflexivity | symmetry; exact Her].
  - (* returned nil *)
    destruct He as (pre0 & He). split; [| split].
    + intros pre e Htr. rewrite He in Htr.
      change (pre ++ [EvWorker (Some e); EvLimiter (Some e) false])
        with (pre ++ [EvWorker (Some e)] ++ [EvLimiter (Some e) false]) in Htr.
      rewrite app_assoc in Htr. apply snoc_inj in Htr.
      destruct Htr as [_ Htr]. discriminate.
    + intros pre _. split; [reflexivity | symmetry; exact Her].
    + intros err st Hr. injection Hr as <- <-.
      split; [apply Hlast; reflexivity | symmetry; exact Her].
  - (* still running *)
    destruct He as (pre0 & arg & He). split; [| split].
    + intros pre e Htr. rewrite He in Htr.
      change (pre ++ [EvWorker (Some e); EvLimiter (Some e) false])
        with (pre ++ [EvWorker (Some e)] ++ [EvLimiter (Some e) false]) in Htr.
      rewrite app_assoc in Htr. apply snoc_inj in Htr.
      destruct Htr as [_ Htr]. discriminate.
    + intros pre Htr. rewrite He in Htr. apply snoc_inj in Htr.
      destruct Htr as [_ Htr]. discriminate.
    + intros err st Hr. discriminate.
Qed.

End RetryFacts.

(** Witnesses of the loop's properties on example workers. *)

Lemma Retry_call_discipline_witness :
  let tr := trace_of (Retry_observed (flaky 2) Forever no_wait 5 0%nat) in
  tr = [EvWorker (Some 0%nat); EvLimiter (Some 0%nat) true; EvTimer;
        EvWorker (Some 1%nat); EvLimiter (Some 1%nat) true; EvTimer;
        EvWorker None]
  /\ calls is_worker tr = S (calls is_timer tr)
  /\ alternating true tr = true.
Proof.
  split; [reflexivity |].
  pose proof (Retry_call_discipline (flaky 2) Forever no_wait 5 0%nat) as H.
  simpl in H. split; [apply H | apply H].
Defined.

Lemma Retry_first_success_witness :
  flaky 0 0%nat = (None, 1%nat)
  /\ Retry_observed (flaky 0) Once no_wait 0 0%nat
     = Returned None (1%nat, [EvWorker None]).
Proof.
  split; [reflexivity |].
  apply (Retry_first_success (flaky 0) Once no_wait 0 0%nat 1%nat); reflexivity.
Defined.

Lemma Retry_returns_last_result_witness :
  Retry_Counts failing no_wait 3 5 0%nat
  = Returned (Some 2%nat)
      ((3%nat, 3),
       [EvWorker (Some 0%nat); EvLimiter (Some 0%nat) true; EvTimer;
        EvWorker (Some 1%nat); EvLimiter (Some 1%nat) true; EvTimer;
        EvWorker (Some 2%nat); EvLimiter (Some 2%nat) false])
  /\ Retry (worker_on_fst failing) (limiter_on_snd (Counts 3))
       (timer_on_fst no_wait) 5 (0%nat, Counts_init)
     = Returned (Some 2%nat) (3%nat, 3)
  /\ Retry (flaky 2) Forever no_wait 5 0%nat = Returned None 3%nat.
Proof.
  split; [reflexivity |]. split.
  - exact (proj2 (proj1
             (Retry_returns_last_result (worker_on_fst failing)
                (limiter_on_snd (Counts 3)) (timer_on_fst no_wait)
                5 (0%nat, Counts_init))
             [EvWorker (Some 0%nat); EvLimiter (Some 0%nat) true; EvTimer;
              EvWorker (Some 1%nat); EvLimiter (Some 1%nat) true; EvTimer]
             2%nat eq_refl)).
  - exact (proj2 (proj1 (proj2
             (Retry_returns_last_result (flaky 2) Forever no_wait 5 0%nat))
             [EvWorker (Some 0%nat); EvLimiter (Some 0%nat) true; EvTimer;
              EvWorker (Some 1%nat); EvLimiter (Some 1%nat) true; EvTimer]
             eq_refl)).
Defined.

(** ** The [Counts] limiter *)

Section CountsFacts.

Context {E : Type}.

(** Below [max], the increment of the counter does not wrap around. *)
Lemma Counts_below (max c : Z) (err : @error E) :
  Int64.in_range max -> 1 <= c -> c < max ->
  Counts max err c = (true, c + 1).
Proof.
  intros Hmax Hc Hlt. unfold Counts, Int64.add.
  destruct (Z.ltb_spec c max) as [_ | Hge]; [| lia].
  rewrite wrap_in_range; [reflexivity |].
  unfold Int64.in_range, Int64.min_int, Int64.max_int in *. lia.
Qed.

Lemma Counts_reached (max c : Z) (err : @error E) :
  max <= c -> Counts max err c = (false, c).
Proof.
  intros Hge. unfold Counts.
  destruct (Z.ltb_spec c max) as [Hlt | _]; [lia | reflexivity].
Qed.

Lemma Counts_run_reached (max : Z) (errs : list (@error E)) :
  forall c, max <= c ->
    Counts_run max errs c = (repeat false (length errs), c).
Proof.
  induction errs as [| err errs IH]; intros c Hge; simpl.
  - reflexivity.
  - rewrite Counts_reached by exact Hge. rewrite IH by exact Hge.
    reflexivity.
Qed.

Lemma Counts_run_answers (max : Z) (errs : list (@error E)) :
  Int64.in_range max ->
  forall c, 1 <= c ->
    fst (Counts_run max errs c) =
    repeat true (Nat.min (length errs) (Z.to_nat (max - c)))
    ++ repeat false (length errs - Z.to_nat (max - c)).
Proof.
  intros Hmax. induction errs as [| err errs IH]; intros c Hc.
  - reflexivity.
  - destruct (Z.lt_ge_cases c max) as [Hlt | Hge].
    + simpl Counts_run. rewrite Counts_below by assumption.
      specialize (IH (c + 1) ltac:(lia)).
      destruct (Counts_run max errs (c + 1)) as [bs c2]. simpl in IH. subst bs.
      replace (Z.to_nat (max - c)) with (S (Z.to_nat (max - (c + 1)))) by lia.
      reflexivity.
    + rewrite Counts_run_reached by exact Hge.
      replace (Z.to_nat (max - c)) with 0%nat by lia.
      rewrite Nat.min_0_r, Nat.sub_0_r. reflexivity.
Qed.

Lemma count_true_repeat (n m : nat) :
  length (filter (fun b : bool => b) (repeat true n ++ repeat false m)) = n.
Proof.
  rewrite filter_app, length_app.
  induction n as [| n IH]; simpl.
  - induction m as [| m IHm]; simpl; auto.
  - lia.
Qed.

(** C10. A [Counts(max)] limiter is permanently stopping once exhausted.
    A call leaves its counter as it is or increments it by one; once a call
    has returned false, every later call returns false; and over any
    sequence of calls made from its creation it returns true for the first
    [max - 1] calls only, hence at most [max - 1] times, and never when
    [max <= 1]. *)
Theorem Counts_permanently_stops (max : Z) :
  Int64.in_range max ->
  (forall (err : @error E) c, 1 <= c ->
     let c' := snd (Counts max err c) in
     1 <= c' /\ (c' = c \/ c' = c + 1)
     /\ (fst (Counts max err c) = true -> c' = c + 1))
  /\ (forall (err : @error E) c c' (errs : list (@error E)),
        Counts max err c = (false, c') ->
        fst (Counts_run max errs c') = repeat false (length errs))
  /\ (forall errs : list (@error E),
        let answers := fst (Counts_run max errs Counts_init) in
        answers = repeat true (Nat.min (length errs) (Z.to_nat (max - 1)))
                  ++ repeat false (length errs - Z.to_nat (max - 1))
        /\ (length (filter (fun b : bool => b) answers) <= Z.to_nat (max - 1))%nat
        /\ (max <= 1 -> length (filter (fun b : bool => b) answers) = 0%nat)).
Proof.
  intros Hmax. split; [| split].
  - intros err c Hc. destruct (Z.lt_ge_cases c max) as [Hlt | Hge].
    + rewrite (Counts_below max c err Hmax Hc Hlt). simpl. lia.
    + rewrite (Counts_reached max c err Hge). simpl.
      repeat split; [lia | left; reflexivity | discriminate].
  - intros err c c' errs Hcall. unfold Counts in Hcall.
    destruct (Z.ltb_spec c max) as [Hlt | Hge]; [discriminate |].
    injection Hcall as <-. rewrite Counts_run_reached by exact Hge. reflexivity.
  - intros errs answers.
    assert (Ha : answers =
                 repeat true (Nat.min (length errs) (Z.to_nat (max - 1)))
                 ++ repeat false (length errs - Z.to_nat (max - 1))).
    { unfold answers, Counts_init. apply Counts_run_answers; [exact Hmax | lia]. }
    split; [exact Ha |]. rewrite Ha, count_true_repeat. split; [lia |].
    intros Hle. replace (Z.to_nat (max - 1)) with 0%nat by lia.
    apply Nat.min_0_r.
Qed.

End CountsFacts.

Lemma Counts_permanently_stops_witness :
  Int64.in_range 3
  /\ fst (Counts_run 3 [Some 0%nat; Some 1%nat; Some 2%nat; Some 3%nat] Counts_init)
     = [true; true; false; false].
Proof.
  assert (H3 : Int64.in_range 3) by (unfold Int64.in_range; split; discriminate).
  split; [exact H3 |].
  destruct (Counts_permanently_stops (E := nat) 3 H3) as (_ & _ & H).
  exact (proj1 (H [Some 0%nat; Some 1%nat; Some 2%nat; Some 3%nat])).
Defined.

(** ** [Retry] bounded by [Counts] *)

Section RetryCountsFacts.

Context {E St : Type}.
Variable worker : @Worker E St.
Variable timer : Timer St.
Variable max : Z.

Hypothesis always_fails : forall s, fst (worker s) <> None.
Hypothesis max_in_range : Int64.in_range max.

(** Entered after a failed attempt with the counter at [c], the loop makes
    [max - c] more attempts and returns the error of the last of them. *)
Lemma loop_Counts (k : nat) :
  forall fuel e s c tr,
    1 <= c -> Z.to_nat (max - c) = k -> (k <= fuel)%nat ->
    exists e' st,
      loop_observed (worker_on_fst worker) (limiter_on_snd (Counts max))
        (timer_on_fst timer) fuel (Some e) ((s, c), tr) = Returned (Some e') st
      /\ calls is_worker (snd st) = (calls is_worker tr + k)%nat.
Proof.
  induction k as [| k IH]; intros fuel e s c tr Hc Hk Hfuel.
  - assert (Hge : max <= c) by lia.
    exists e, ((s, c), tr ++ [EvLimiter (Some e) false]). split.
    + unfold loop_observed.
      destruct fuel; simpl; unfold spy_limiter, limiter_on_snd; simpl;
        rewrite (Counts_reached max c (Some e) Hge); reflexivity.
    + simpl. rewrite calls_snoc. simpl. lia.
  - assert (Hlt : c < max) by lia.
    destruct fuel as [| fuel]; [lia |].
    destruct (worker (timer s)) as [r s3] eqn:Hw.
    destruct r as [e1 |];
      [| exfalso; apply (always_fails (timer s)); rewrite Hw; reflexivity].
    destruct (IH fuel e1 s3 (c + 1)
                (tr ++ [EvLimiter (Some e) true] ++ [EvTimer] ++ [EvWorker (Some e1)])
                ltac:(lia) ltac:(lia) ltac:(lia)) as (e' & st & Hrun & Hcalls).
    exists e', st. split.
    + rewrite <- Hrun. unfold loop_observed. simpl.
      unfold spy_limiter, limiter_on_snd; simpl.
      rewrite (Counts_below max c (Some e) max_in_range Hc Hlt). simpl.
      unfold spy_timer, spy_worker, timer_on_fst, worker_on_fst; simpl.
      rewrite Hw. simpl. rewrite <- !app_assoc. reflexivity.
    + rewrite Hcalls, !app_assoc, !calls_snoc. simpl. lia.
Qed.

(** C3. With an always-failing worker and the [Counts(max)] limiter,
    [Retry] returns as soon as it is given fuel for [max - 1] iterations,
    and what it returns is the error of its last attempt.  It has then
    called the worker exactly [max] times when [max >= 1], and exactly once
    when [max <= 1], zero and negative [max] included. *)
Theorem Retry_Counts_attempts (fuel : nat) (s : St) :
  (Z.to_nat (max - 1) <= fuel)%nat ->
  exists e st,
    Retry_Counts worker timer max fuel s = Returned (Some e) st
    /\ last_worker_result (snd st) = Some (Some e)
    /\ calls is_worker (snd st) = Z.to_nat (Z.max max 1)
    /\ (1 <= max -> Z.of_nat (calls is_worker (snd st)) = max)
    /\ (max <= 1 -> calls is_worker (snd st) = 1%nat).
Proof.
  intros Hfuel.
  assert (Hrun : exists e st,
             Retry_Counts worker timer max fuel s = Returned (Some e) st
             /\ calls is_worker (snd st) = S (Z.to_nat (max - 1))).
  { unfold Retry_Counts, Retry_observed, Retry, spy_worker, worker_on_fst.
    simpl. destruct (worker s) as [r s1] eqn:Hw.
    destruct r as [e0 |];
      [| exfalso; apply (always_fails s); rewrite Hw; reflexivity].
    destruct (loop_Counts (Z.to_nat (max - 1)) fuel e0 s1 Counts_init
                [EvWorker (Some e0)] ltac:(unfold Counts_init; lia)
                eq_refl Hfuel) as (e & st & Hloop & Hcalls).
    exists e, st. split; [exact Hloop | exact Hcalls]. }
  destruct Hrun as (e & st & Hrun & Hcalls).
  exists e, st. split; [exact Hrun |]. split.
  - exact (Retry_observed_last _ _ _ fuel (s, Counts_init) (Some e) st Hrun).
  - rewrite Hcalls. repeat split; lia.
Qed.

End RetryCountsFacts.

Lemma Retry_Counts_attempts_witness :
  (forall n : nat, fst (failing n) <> None)
  /\ Int64.in_range 3
  /\ exists e st,
       Retry_Counts failing no_wait 3 2 0%nat = Returned (Some e) st
       /\ calls is_worker (snd st) = 3%nat.
Proof.
  assert (Hf : forall n : nat, fst (failing n) <> None) by (intros n; discriminate).
  assert (H3 : Int64.in_range 3) by (unfold Int64.in_range; split; discriminate).
  split; [exact Hf |]. split; [exact H3 |].
  destruct (Retry_Counts_attempts failing no_wait 3 Hf H3 2 0%nat (le_n 2))
    as (e & st & Hrun & _ & Hcalls & _).
  exists e, st. split; [exact Hrun | exact Hcalls].
Defined.

(** ** Cancelable limiters *)

Section CancelableFacts.

Context {E St : Type}.
Variable ctx : Context St.

(** C4. A limiter built by [CancelableLimiter(ctx, inner)] first looks at
    the cancellation signal, without blocking.  If cancellation has occurred
    it returns false and the inner limiter is not invoked: the world is left
    as it was and an observed inner limiter logs no call.  Otherwise it
    returns exactly what [inner(err)] returns, with the effects of that one
    call. *)
Theorem CancelableLimiter_checks_first (inner : @Limiter E St)
    (err : @error E) (s : St) (tr : @Trace E) :
  (ctx s = true ->
     CancelableLimiter ctx inner err s = (false, s)
     /\ CancelableLimiter (context_on_fst ctx) (spy_limiter inner) err (s, tr)
        = (false, (s, tr)))
  /\ (ctx s = false ->
        CancelableLimiter ctx inner err s = inner err s
        /\ CancelableLimiter (context_on_fst ctx) (spy_limiter inner) err (s, tr)
           = spy_limiter inner err (s, tr)
        /\ snd (snd (spy_limiter inner err (s, tr)))
           = tr ++ [EvLimiter err (fst (inner err s))]).
Proof.
  unfold CancelableLimiter, context_on_fst. simpl. split; intros ->.
  - split; reflexivity.
  - repeat split. unfold spy_limiter. simpl.
    destruct (inner err s) as [b s']. reflexivity.
Qed.

(** C5. [UntilCanceled(ctx)] is [CancelableLimiter(ctx, Forever())], call
    for call: for every error it returns false if cancellation has occurred
    and true otherwise, and leaves the world as it is.  [Forever]'s limiter
    returns true for every error and [Once]'s returns false. *)
Theorem UntilCanceled_is_cancelable_Forever (err : @error E) (s : St) :
  UntilCanceled ctx err s = CancelableLimiter ctx Forever err s
  /\ UntilCanceled ctx err s = UntilCanceled_spec ctx err s
  /\ (ctx s = true -> UntilCanceled ctx err s = (false, s))
  /\ (ctx s = false -> UntilCanceled ctx err s = (true, s))
  /\ Forever err s = (true, s)
  /\ Once err s = (false, s).
Proof.
  unfold UntilCanceled, UntilCanceled_spec, CancelableLimiter, Forever, Once.
  repeat split; try (intros ->; reflexivity).
  destruct (ctx s); reflexivity.
Qed.

End CancelableFacts.

Lemma CancelableLimiter_checks_first_witness :
  CancelableLimiter (fun c : Z => Z.even c) (Counts 3) (Some 5%nat) 2
  = (false, 2)
  /\ CancelableLimiter (fun c : Z => Z.even c) (Counts 3) (Some 5%nat) 1
     = (true, 2).
Proof.
  split.
  - exact (proj1 (proj1 (CancelableLimiter_checks_first (fun c : Z => Z.even c)
                           (Counts 3) (Some 5%nat) 2 []) eq_refl)).
  - exact (proj1 (proj2 (CancelableLimiter_checks_first (fun c : Z => Z.even c)
                           (Counts 3) (Some 5%nat) 1 []) eq_refl)).
Defined.

Lemma UntilCanceled_is_cancelable_Forever_witness :
  UntilCanceled (fun n : nat => Nat.even n) (Some 5%nat) 2%nat = (false, 2%nat)
  /\ UntilCanceled (fun n : nat => Nat.even n) (Some 5%nat) 1%nat = (true, 1%nat).
Proof.
  split.
  - destruct (UntilCanceled_is_cancelable_Forever (fun n : nat => Nat.even n)
                (Some 5%nat) 2%nat) as (_ & _ & H & _).
    apply H. reflexivity.
  - destruct (UntilCanceled_is_cancelable_Forever (fun n : nat => Nat.even n)
                (Some 5%nat) 1%nat) as (_ & _ & _ & H & _).
    apply H. reflexivity.
Defined.

(** ** Backoff timers *)

(** One call of the timer: it sleeps for the stored delay, then escalates
    it, the doubling being that of [time.Duration]. *)
Lemma MultiplicativeBackoff_call (ceil : Z) (st : Backoff) :
  MultiplicativeBackoff ceil st =
  {| dur := if dur st =? ceil then ceil else Z.min (Int64.mul (dur st) 2) ceil;
     slept := slept st ++ [dur st] |}.
Proof.
  unfold MultiplicativeBackoff.
  destruct (Z.eqb_spec (dur st) ceil) as [Heq | Hne]; simpl.
  - rewrite Heq. reflexivity.
  - rewrite Z.gtb_ltb.
    destruct (Z.ltb_spec ceil (Int64.mul (dur st) 2)) as [Hlt | Hge].
    + rewrite Z.min_r by lia. reflexivity.
    + rewrite Z.min_l by lia. reflexivity.
Qed.

Lemma CancelableMultiplicativeBackoff_call (ceil : Z) (w : wake) (st : CBackoff) :
  CancelableMultiplicativeBackoff ceil w st =
  {| cdur := if cdur st =? ceil then ceil else Z.min (Int64.mul (cdur st) 2) ceil;
     waited := waited st ++ [(cdur st, w)] |}.
Proof.
  unfold CancelableMultiplicativeBackoff.
  destruct (Z.eqb_spec (cdur st) ceil) as [Heq | Hne]; simpl.
  - rewrite Heq. reflexivity.
  - rewrite Z.gtb_ltb.
    destruct (Z.ltb_spec ceil (Int64.mul (cdur st) 2)) as [Hlt | Hge].
    + rewrite Z.min_r by lia. reflexivity.
    + rewrite Z.min_l by lia. reflexivity.
Qed.

(** When the double of the delay is representable, the escalation is the
    one of the specification's state machine. *)
Lemma escalation_schedule_spec (ceil d : Z) :
  Int64.in_range (d * 2) ->
  (if d =? ceil then ceil else Z.min (Int64.mul d 2) ceil) = schedule_spec ceil d.
Proof.
  intros Hr. unfold schedule_spec, Int64.mul. rewrite wrap_in_range by exact Hr.
  reflexivity.
Qed.

Lemma calls_of_succ {St : Type} (t : Timer St) (n : nat) (s : St) :
  calls_of t (S n) s = t (calls_of t n s).
Proof. reflexivity. Qed.

Lemma repeat_snoc {A : Type} (a : A) (n : nat) :
  repeat a n ++ [a] = a :: repeat a n.
Proof. symmetry. apply repeat_cons. Qed.

(** The ceiling is absorbing. *)
Lemma MultiplicativeBackoff_at_ceiling (ceil : Z) (n : nat) :
  forall log,
    calls_of (MultiplicativeBackoff ceil) n {| dur := ceil; slept := log |}
    = {| dur := ceil; slept := log ++ repeat ceil n |}.
Proof.
  induction n as [| n IH]; intros log.
  - simpl. rewrite app_nil_r. reflexivity.
  - rewrite calls_of_succ, IH, MultiplicativeBackoff_call. simpl.
    rewrite Z.eqb_refl, <- app_assoc, repeat_snoc. reflexivity.
Qed.

(** A cancelable backoff simulates a backoff, whatever wakes it. *)
Lemma as_backoff_call (ceil : Z) (w : wake) (st : CBackoff) :
  as_backoff (CancelableMultiplicativeBackoff ceil w st)
  = MultiplicativeBackoff ceil (as_backoff st).
Proof.
  rewrite CancelableMultiplicativeBackoff_call, MultiplicativeBackoff_call.
  unfold as_backoff. simpl. rewrite map_app. reflexivity.
Qed.

Lemma as_backoff_calls (ceil : Z) (ws : list wake) (st : CBackoff) :
  as_backoff (cancelable_calls ceil ws st)
  = calls_of (MultiplicativeBackoff ceil) (length ws) (as_backoff st).
Proof.
  induction ws as [| w ws IH] using rev_ind.
  - reflexivity.
  - unfold cancelable_calls in *. rewrite fold_left_app, length_app. simpl.
    rewrite Nat.add_comm. simpl Nat.add. rewrite calls_of_succ, <- IH.
    apply as_backoff_call.
Qed.



Lemma MultiplicativeBackoff_1_4 (n : nat) :
  calls_of (MultiplicativeBackoff 4) (S (S n)) (MultiplicativeBackoff_init 1)
  = {| dur := 4; slept := 1 :: 2 :: repeat 4 n |}.
Proof.
  induction n as [| n IH].
  - reflexivity.
  - rewrite calls_of_succ, IH, MultiplicativeBackoff_call. simpl dur. simpl slept.
    rewrite Z.eqb_refl.
    change (1 :: 2 :: repeat 4 n) with ([1; 2] ++ repeat 4 n).
    rewrite <- app_assoc, repeat_snoc. reflexivity.
Qed.

(** C6, as the code has it.  A [MultiplicativeBackoff(1, 4)] timer called
    repeatedly sleeps 1, 2, 4, 4, 4, ...  In general a call sleeps for the
    stored delay and then, provided the double of the delay is representable
    in the signed 64 bits of [time.Duration], moves it to
    [min(delay*2, ceiling)], unless the delay equals the ceiling.  The
    ceiling is absorbing: once the stored delay equals the ceiling, every
    later call sleeps for the ceiling and leaves it there. *)
Theorem MultiplicativeBackoff_schedule :
  (forall n,
     slept (calls_of (MultiplicativeBackoff 4) n (MultiplicativeBackoff_init 1))
     = firstn n [1; 2] ++ repeat 4 (n - 2))
  /\ (forall ceil st,
        Int64.in_range (dur st * 2) ->
        MultiplicativeBackoff ceil st
        = {| dur := schedule_spec ceil (dur st); slept := slept st ++ [dur st] |})
  /\ (forall ceil log n,
        calls_of (MultiplicativeBackoff ceil) n {| dur := ceil; slept := log |}
        = {| dur := ceil; slept := log ++ repeat ceil n |}).
Proof.
  split; [| split].
  - intros [| [| n]]; try reflexivity.
    rewrite MultiplicativeBackoff_1_4. simpl. rewrite firstn_nil, Nat.sub_0_r.
    reflexivity.
  - intros ceil st Hr.
    rewrite MultiplicativeBackoff_call, escalation_schedule_spec by exact Hr.
    reflexivity.
  - intros ceil log n. apply MultiplicativeBackoff_at_ceiling.
Qed.

Lemma MultiplicativeBackoff_schedule_witness :
  Int64.in_range (2 * 2)
  /\ MultiplicativeBackoff 4 {| dur := 2; slept := [1] |}
     = {| dur := 4; slept := [1; 2] |}.
Proof.
  assert (Hr : Int64.in_range (2 * 2)) by (unfold Int64.in_range; split; discriminate).
  split; [exact Hr |].
  exact (proj1 (proj2 MultiplicativeBackoff_schedule) 4 {| dur := 2; slept := [1] |} Hr).
Defined.

(** C6, as it is stated, fails where the doubling overflows: from a delay of
    [2^62] under the largest ceiling, the stored delay becomes the least
    [int64], not the ceiling that [min(delay*2, ceiling)] gives. *)
Lemma backoff_doubling_overflow :
  let st := MultiplicativeBackoff_init (2 ^ 62) in
  Int64.in_range (dur st)
  /\ Int64.in_range Int64.max_int
  /\ dur st <> Int64.max_int
  /\ dur (MultiplicativeBackoff Int64.max_int st) = Int64.min_int
  /\ schedule_spec Int64.max_int (dur st) = Int64.max_int
  /\ dur (MultiplicativeBackoff Int64.max_int st)
     <> schedule_spec Int64.max_int (dur st).
Proof.
  unfold Int64.in_range.
  repeat split; try reflexivity; discriminate.
Qed.

(** C8, as the code has it.  A [CancelableMultiplicativeBackoff] timer
    follows the escalation schedule of [MultiplicativeBackoff]: seen as a
    backoff, each of its calls is a call of [MultiplicativeBackoff], so
    after any number of calls, whatever woke each of them, it stores the
    same delay and has asked for the same durations.  The delay stored after
    a call does not depend on whether the timer fired or the wait was
    cancelled; provided its double is representable in the signed 64 bits of
    [time.Duration], it is the delay doubled and clamped to the ceiling,
    unless it was at the ceiling already. *)
Theorem cancelable_follows_backoff :
  (forall ceil w st,
     as_backoff (CancelableMultiplicativeBackoff ceil w st)
     = MultiplicativeBackoff ceil (as_backoff st))
  /\ (forall ceil ws base,
        as_backoff (cancelable_calls ceil ws (CancelableMultiplicativeBackoff_init base))
        = calls_of (MultiplicativeBackoff ceil) (length ws)
            (MultiplicativeBackoff_init base))
  /\ (forall ceil st,
        cdur (CancelableMultiplicativeBackoff ceil TimerFired st)
        = cdur (CancelableMultiplicativeBackoff ceil Canceled st))
  /\ (forall ceil w st,
        Int64.in_range (cdur st * 2) ->
        cdur (CancelableMultiplicativeBackoff ceil w st)
        = schedule_spec ceil (cdur st)).
Proof.
  repeat split.
  - apply as_backoff_call.
  - intros ceil ws base. apply as_backoff_calls.
  - intros ceil st. rewrite !CancelableMultiplicativeBackoff_call. reflexivity.
  - intros ceil w st Hr. rewrite CancelableMultiplicativeBackoff_call. simpl.
    apply escalation_schedule_spec. exact Hr.
Qed.

Lemma cancelable_follows_backoff_witness :
  Int64.in_range (3 * 2)
  /\ cdur (CancelableMultiplicativeBackoff 4 Canceled
             {| cdur := 3; waited := [] |}) = 4.
Proof.
  assert (Hr : Int64.in_range (3 * 2)) by (unfold Int64.in_range; split; discriminate).
  split; [exact Hr |].
  exact (proj2 (proj2 (proj2 cancelable_follows_backoff))
           4 Canceled {| cdur := 3; waited := [] |} Hr).
Defined.

(** C8, as it is stated, fails where the doubling overflows: the delay
    stored after a call on [2^62] under the largest ceiling is the least
    [int64], which is neither the double nor the ceiling. *)
Lemma cancelable_doubling_overflow :
  let st := CancelableMultiplicativeBackoff_init (2 ^ 62) in
  Int64.in_range (cdur st)
  /\ cdur st <> Int64.max_int
  /\ cdur (CancelableMultiplicativeBackoff Int64.max_int TimerFired st)
     = Int64.min_int
  /\ cdur (CancelableMultiplicativeBackoff Int64.max_int Canceled st)
     = Int64.min_int
  /\ schedule_spec Int64.max_int (cdur st) = Int64.max_int
  /\ cdur (CancelableMultiplicativeBackoff Int64.max_int TimerFired st)
     <> schedule_spec Int64.max_int (cdur st).
Proof.
  unfold Int64.in_range.
  repeat split; try reflexivity; discriminate.
Qed.




(** * Further properties of the package *)

(** ** The loop under [Once] and [Forever] *)

Section RetryLimiters.

Context {E St : Type}.
Variable worker : @Worker E St.
Variable timer : Timer St.

(** X1. Under [Once] the worker is attempted exactly once, whatever it
    returns and however much fuel there is: [Retry] returns the result of
    that attempt in the world it left, the limiter is consulted once if
    the attempt failed, and the timer is never called. *)
Theorem Retry_Once (fuel : nat) (s : St) :
  Retry worker Once timer fuel s = Returned (fst (worker s)) (snd (worker s))
  /\ trace_of (Retry_observed worker Once timer fuel s)
     = match fst (worker s) with
       | None => [EvWorker None]
       | Some e => [EvWorker (Some e); EvLimiter (Some e) false]
       end.
Proof.
  unfold Retry_observed, Retry, spy_worker. simpl.
  destruct (worker s) as [[e |] s1]; destruct fuel; split; reflexivity.
Qed.

Lemma loop_Forever_returns_nil (fuel : nat) :
  forall err s err' s',
    Retry_loop worker Forever timer fuel err s = Returned err' s' -> err' = None.
Proof.
  induction fuel as [| fuel IH]; intros err s err' s' Hr;
    destruct err as [e |]; simpl in Hr; try congruence.
  destruct (worker (timer s)) as [r s3]. exact (IH _ _ _ _ Hr).
Qed.

Lemma loop_Forever_failing (fuel : nat) :
  (forall s, fst (worker s) <> None) ->
  forall e s tr,
    exists st,
      loop_observed worker Forever timer fuel (Some e) (s, tr) = Running st
      /\ calls is_worker (snd st) = (calls is_worker tr + fuel)%nat.
Proof.
  intros Hfail. unfold loop_observed.
  induction fuel as [| fuel IH]; intros e s tr; simpl.
  - eexists. split; [reflexivity |]. simpl. rewrite calls_snoc. simpl. lia.
  - unfold spy_timer, spy_worker; simpl.
    destruct (worker (timer s)) as [r s3] eqn:Hw.
    destruct r as [e1 |];
      [| exfalso; apply (Hfail (timer s)); rewrite Hw; reflexivity].
    destruct (IH e1 s3 (((tr ++ [EvLimiter (Some e) true]) ++ [EvTimer])
                          ++ [EvWorker (Some e1)])) as (st & Hrun & Hc).
    exists st. split; [exact Hrun |].
    rewrite Hc, !calls_snoc. simpl. lia.
Qed.

(** X2. Under [Forever] the loop can only end on a success: whenever
    [Retry] returns, it returns nil.  With a worker that always fails it
    never returns: after any number [n] of iterations it is still running,
    having called the worker [n + 1] times. *)
Theorem Retry_Forever (fuel : nat) (s : St) :
  (forall err s', Retry worker Forever timer fuel s = Returned err s' -> err = None)
  /\ ((forall s0, fst (worker s0) <> None) ->
      exists st,
        Retry_observed worker Forever timer fuel s = Running st
        /\ calls is_worker (snd st) = S fuel).
Proof.
  split.
  - intros err s' Hr. unfold Retry in Hr. destruct (worker s) as [r s1].
    exact (loop_Forever_returns_nil fuel _ _ _ _ Hr).
  - intros Hfail. unfold Retry_observed, Retry, spy_worker. simpl.
    destruct (worker s) as [r s1] eqn:Hw.
    destruct r as [e |];
      [| exfalso; apply (Hfail s); rewrite Hw; reflexivity].
    destruct (loop_Forever_failing fuel Hfail e s1 [EvWorker (Some e)])
      as (st & Hrun & Hc).
    exists st. split; [exact Hrun | exact Hc].
Qed.

End RetryLimiters.

Lemma Retry_Forever_witness :
  (forall n : nat, fst (failing n) <> None)
  /\ exists st,
       Retry_observed failing Forever no_wait 4 0%nat = Running st
       /\ calls is_worker (snd st) = 5%nat.
Proof.
  assert (Hf : forall n : nat, fst (failing n) <> None) by (intros n; discriminate).
  split; [exact Hf |].
  exact (proj2 (Retry_Forever failing no_wait 4 0%nat) Hf).
Defined.

(** ** Failed attempts, limiter checks and timer calls *)

Section RetryCounting.

Context {E St : Type}.
Variable worker : @Worker E St.
Variable limiter : @Limiter E St.
Variable timer : Timer St.

(** The number of iterations a stopped run still owes: one when it ran out
    of fuel right after the limiter said to go on. *)
Lemma loop_checks_and_waits (fuel : nat) :
  forall (err : @error E) s tr,
    calls is_failure tr
    = (calls is_limiter tr + match err with Some _ => 1 | None => 0 end)%nat ->
    calls is_continue tr = calls is_timer tr ->
    let o := loop_observed worker limiter timer fuel err (s, tr) in
    calls is_failure (trace_of o) = calls is_limiter (trace_of o)
    /\ calls is_continue (trace_of o)
       = (calls is_timer (trace_of o)
          + match o with Running _ => 1 | Returned _ _ => 0 end)%nat.
Proof.
  unfold loop_observed.
  induction fuel as [| fuel IH]; intros err s tr Hf Hc;
    (destruct err as [e |]; simpl;
     [ unfold spy_limiter; simpl; destruct (limiter (Some e) s) as [[|] s1]
     | unfold trace_of; simpl; lia ]);
    try (unfold trace_of; simpl; rewrite !calls_snoc; simpl; lia).
  unfold spy_timer, spy_worker; simpl.
  destruct (worker (timer s1)) as [r s3]. apply IH.
  - rewrite !calls_snoc. simpl. destruct r; simpl; lia.
  - rewrite !calls_snoc. simpl. lia.
Qed.

Lemma linked_app_l (p q : @Trace E) : linked (p ++ q) -> linked p.
Proof.
  induction p as [| a p IH]; simpl; intros Hl; [trivial |].
  destruct p as [| b p]; simpl in *; [trivial |].
  destruct Hl as [Hf Hl]. split; [exact Hf | exact (IH Hl)].
Qed.

(** In a log that obeys the discipline of the loop, the failed attempts
    number the limiter checks, plus the failure that the last call may be;
    the answers to go on number the timer calls, plus the answer that the
    last call may be. *)
Lemma linked_counts (p : @Trace E) :
  linked p ->
  (exists r rest, p = EvWorker r :: rest) ->
  calls is_failure p
  = (calls is_limiter p + if is_failure (last p EvTimer) then 1 else 0)%nat
  /\ calls is_continue p
     = (calls is_timer p + if is_continue (last p EvTimer) then 1 else 0)%nat.
Proof.
  induction p as [| x p IH] using rev_ind; intros Hl (r & rest & Hh).
  - discriminate.
  - rewrite !calls_snoc, last_last.
    destruct p as [| y0 p0].
    + simpl in Hh. injection Hh as -> _. destruct r; simpl; split; reflexivity.
    + assert (Hne : y0 :: p0 <> []) by discriminate.
      destruct (exists_last Hne) as (p' & y & Hp). rewrite Hp in *.
      assert (Hf : follows y x).
      { rewrite <- app_assoc in Hl. exact (linked_adjacent _ _ _ _ Hl). }
      destruct IH as [IHf IHc].
      * exact (linked_app_l _ _ Hl).
      * destruct p' as [| z p']; simpl in Hh; injection Hh as -> _;
          eexists; eexists; reflexivity.
      * rewrite last_last in IHf, IHc.
        destruct y as [[e |] | arg [|] |], x as [[e' |] | arg' [|] |];
          simpl in Hf; try contradiction; simpl in *; split; lia.
Qed.

(** X3. Every failed attempt is submitted to the limiter, once, and every
    answer to go on is followed by one call of the timer.  At each point of
    a run, that is for each non-empty prefix of its log, the failed attempts
    number the limiter checks, plus one exactly when the last call made is a
    failed attempt, which the limiter has yet to see; and the answers to go
    on number the timer calls, plus one exactly when the last call made is
    such an answer.  So when [Retry] has returned, there have been as many
    limiter checks as failed attempts and as many timer calls as answers to
    go on. *)
Theorem Retry_checks_every_failure (fuel : nat) (s : St) :
  let o := Retry_observed worker limiter timer fuel s in
  (forall p q,
     trace_of o = p ++ q -> p <> [] ->
     calls is_failure p
     = (calls is_limiter p + if is_failure (last p EvTimer) then 1 else 0)%nat
     /\ calls is_continue p
        = (calls is_timer p + if is_continue (last p EvTimer) then 1 else 0)%nat)
  /\ (forall err st,
        o = Returned err st ->
        calls is_limiter (snd st) = calls is_failure (snd st)
        /\ calls is_timer (snd st) = calls is_continue (snd st)).
Proof.
  intros o.
  assert (H : calls is_failure (trace_of o) = calls is_limiter (trace_of o)
              /\ calls is_continue (trace_of o)
                 = (calls is_timer (trace_of o)
                    + match o with Running _ => 1 | Returned _ _ => 0 end)%nat).
  { unfold o, Retry_observed, Retry, spy_worker. simpl.
    destruct (worker s) as [r s1].
    apply loop_checks_and_waits; destruct r; reflexivity. }
  destruct H as [Hf Hc]. split.
  - intros p q Htr Hne.
    destruct (Retry_at_exit worker limiter timer fuel s)
      as (Hl & (r & rest & Hh) & _ & _).
    fold o in Hl, Hh. rewrite Htr in Hl, Hh.
    apply linked_counts; [exact (linked_app_l _ _ Hl) |].
    destruct p as [| x p]; [contradiction |].
    simpl in Hh. injection Hh as -> _. eexists; eexists; reflexivity.
  - intros err st Ho. rewrite Ho in Hf, Hc. unfold trace_of in Hf, Hc.
    simpl in Hf, Hc. split; lia.
Qed.

End RetryCounting.

Lemma Retry_checks_every_failure_witness :
  exists st,
    Retry_observed (worker_on_fst (flaky 2)) (limiter_on_snd (Counts 5))
      no_wait 9 (0%nat, 1)
    = Returned None st
    /\ snd st = [EvWorker (Some 0%nat); EvLimiter (Some 0%nat) true; EvTimer;
                 EvWorker (Some 1%nat)]
                ++ [EvLimiter (Some 1%nat) true; EvTimer; EvWorker None]
    /\ (calls is_failure [EvWorker (Some 0%nat); EvLimiter (Some 0%nat) true;
                          EvTimer; EvWorker (Some 1%nat)]
        = calls is_limiter [EvWorker (Some 0%nat); EvLimiter (Some 0%nat) true;
                            EvTimer; EvWorker (Some 1%nat)] + 1)%nat
    /\ calls is_limiter (snd st) = calls is_failure (snd st)
    /\ calls is_timer (snd st) = calls is_continue (snd st).
Proof.
  eexists. split; [reflexivity |]. split; [reflexivity |].
  pose proof (Retry_checks_every_failure (worker_on_fst (flaky 2))
                (limiter_on_snd (Counts 5)) no_wait 9 (0%nat, 1)) as [Hp Hr].
  split.
  - exact (proj1 (Hp [EvWorker (Some 0%nat); EvLimiter (Some 0%nat) true;
                      EvTimer; EvWorker (Some 1%nat)]
                     [EvLimiter (Some 1%nat) true; EvTimer; EvWorker None]
                     eq_refl ltac:(discriminate))).
  - exact (Hr _ _ eq_refl).
Defined.

(** ** The loop under cancelable limiters *)

Section RetryCancelable.

Context {E St : Type}.
Variable worker : @Worker E St.
Variable timer : Timer St.
Variable ctx : Context St.

(** X4. When the context is already canceled as the first attempt ends,
    [Retry] with a cancelable limiter stops there: it returns the result of
    that single attempt, and neither the inner limiter nor the timer is
    called. *)
Theorem Retry_canceled_before (inner : @Limiter E St) (fuel : nat)
    (s s1 : St) (err : @error E) :
  worker s = (err, s1) ->
  ctx s1 = true ->
  Retry worker (CancelableLimiter ctx inner) timer fuel s = Returned err s1
  /\ Retry_cancelable_observed worker ctx inner timer fuel s
     = Returned err (s1, [EvWorker err]).
Proof.
  intros Hw Hc.
  unfold Retry_cancelable_observed, Retry, spy_worker. simpl. rewrite Hw.
  destruct err as [e |]; destruct fuel; simpl;
    unfold CancelableLimiter, context_on_fst; simpl; rewrite ?Hc;
    split; reflexivity.
Qed.

Lemma loop_UntilCanceled_error (fuel : nat) :
  forall err s e s',
    Retry_loop worker (UntilCanceled ctx) timer fuel err s = Returned (Some e) s' ->
    ctx s' = true.
Proof.
  induction fuel as [| fuel IH]; intros err s e s' Hr;
    destruct err as [e0 |]; simpl in Hr; try discriminate;
    unfold UntilCanceled, CancelableLimiter, Forever in Hr;
    destruct (ctx s) eqn:Hc; try discriminate.
  - injection Hr as _ <-. exact Hc.
  - injection Hr as _ <-. exact Hc.
  - destruct (worker (timer s)) as [r s3]. exact (IH _ _ _ _ Hr).
Qed.

Lemma loop_UntilCanceled_never (fuel : nat) :
  (forall s, ctx s = false) ->
  (forall s, fst (worker s) <> None) ->
  forall e s,
    exists s',
      Retry_loop worker (UntilCanceled ctx) timer fuel (Some e) s = Running s'.
Proof.
  intros Hctx Hfail.
  induction fuel as [| fuel IH]; intros e s; simpl;
    unfold UntilCanceled, CancelableLimiter, Forever; rewrite Hctx.
  - eexists; reflexivity.
  - destruct (worker (timer s)) as [r s3] eqn:Hw.
    destruct r as [e1 |];
      [| exfalso; apply (Hfail (timer s)); rewrite Hw; reflexivity].
    apply IH.
Qed.

(** X5. Under [UntilCanceled(ctx)] an error comes back only on
    cancellation: whenever [Retry] returns a non-nil error, the context is
    canceled in the world it returns in.  If the context is never canceled
    and the worker always fails, [Retry] never returns. *)
Theorem Retry_UntilCanceled (fuel : nat) (s : St) :
  (forall e s',
     Retry worker (UntilCanceled ctx) timer fuel s = Returned (Some e) s' ->
     ctx s' = true)
  /\ ((forall s0, ctx s0 = false) ->
      (forall s0, fst (worker s0) <> None) ->
      exists s', Retry worker (UntilCanceled ctx) timer fuel s = Running s').
Proof.
  split.
  - intros e s' Hr. unfold Retry in Hr. destruct (worker s) as [r s1].
    exact (loop_UntilCanceled_error fuel _ _ _ _ Hr).
  - intros Hctx Hfail. unfold Retry.
    destruct (worker s) as [r s1] eqn:Hw.
    destruct r as [e |];
      [| exfalso; apply (Hfail s); rewrite Hw; reflexivity].
    apply loop_UntilCanceled_never; assumption.
Qed.

(** X6. Cancelable limiters compose: a limiter wrapped for two contexts
    stops as soon as either is canceled, in whichever order it was wrapped,
    and consults the inner limiter only when neither is; wrapping twice for
    the same context changes nothing. *)
Theorem CancelableLimiter_nested (ctx' : Context St) (inner : @Limiter E St)
    (err : @error E) (s : St) :
  CancelableLimiter ctx (CancelableLimiter ctx' inner) err s
  = CancelableLimiter (fun s0 => ctx s0 || ctx' s0) inner err s
  /\ CancelableLimiter ctx (CancelableLimiter ctx' inner) err s
     = CancelableLimiter ctx' (CancelableLimiter ctx inner) err s
  /\ CancelableLimiter ctx (CancelableLimiter ctx inner) err s
     = CancelableLimiter ctx inner err s.
Proof.
  unfold CancelableLimiter.
  destruct (ctx s), (ctx' s); simpl; repeat split; reflexivity.
Qed.

End RetryCancelable.

Lemma Retry_canceled_before_witness :
  failing 3%nat = (Some 3%nat, 4%nat)
  /\ Nat.even 4 = true
  /\ Retry_cancelable_observed failing (fun n : nat => Nat.even n) Forever
       no_wait 7 3%nat
     = Returned (Some 3%nat) (4%nat, [EvWorker (Some 3%nat)]).
Proof.
  split; [reflexivity |]. split; [reflexivity |].
  exact (proj2 (Retry_canceled_before failing no_wait (fun n : nat => Nat.even n)
                  Forever 7 3%nat 4%nat (Some 3%nat) eq_refl eq_refl)).
Defined.

Lemma Retry_UntilCanceled_witness :
  Retry failing (UntilCanceled (fun n : nat => (2 <? n)%nat)) no_wait 9 0%nat
  = Returned (Some 2%nat) 3%nat
  /\ (2 <? 3)%nat = true.
Proof.
  split; [reflexivity |].
  exact (proj1 (Retry_UntilCanceled failing no_wait (fun n : nat => (2 <? n)%nat)
                  9 0%nat) 2%nat 3%nat eq_refl).
Defined.

(** ** [Counts] with any worker, and used twice *)

Section RetryCountsAny.

Context {E St : Type}.
Variable max : Z.
Hypothesis max_in_range : Int64.in_range max.

Lemma loop_Counts_any (worker : @Worker E St) (timer : Timer St) (k : nat) :
  forall fuel (err : @error E) s c tr,
    1 <= c -> Z.to_nat (max - c) = k -> (k <= fuel)%nat ->
    exists err' st,
      loop_observed (worker_on_fst worker) (limiter_on_snd (Counts max))
        (timer_on_fst timer) fuel err ((s, c), tr) = Returned err' st
      /\ (calls is_worker tr <= calls is_worker (snd st) <= calls is_worker tr + k)%nat
      /\ (err' <> None -> calls is_worker (snd st) = (calls is_worker tr + k)%nat)
      /\ (err' <> None -> max <= snd (fst st)).
Proof.
  unfold loop_observed.
  induction k as [| k IH]; intros fuel err s c tr Hc Hk Hfuel;
    (destruct err as [e |];
     [| exists None, ((s, c), tr); destruct fuel; simpl;
        (split; [reflexivity | split; [lia | split; congruence]])]).
  - assert (Hge : max <= c) by lia.
    exists (Some e), ((s, c), tr ++ [EvLimiter (Some e) false]). split.
    + destruct fuel; simpl; unfold spy_limiter, limiter_on_snd; simpl;
        rewrite (Counts_reached max c (Some e) Hge); reflexivity.
    + simpl. rewrite calls_snoc. simpl. repeat split; lia.
  - assert (Hlt : c < max) by lia.
    destruct fuel as [| fuel]; [lia |].
    destruct (worker (timer s)) as [r s3] eqn:Hw.
    destruct (IH fuel r s3 (c + 1)
                (tr ++ [EvLimiter (Some e) true] ++ [EvTimer] ++ [EvWorker r])
                ltac:(lia) ltac:(lia) ltac:(lia))
      as (err' & st & Hrun & Hle & Heq & Hmax).
    exists err', st. split.
    + rewrite <- Hrun. simpl.
      unfold spy_limiter, limiter_on_snd; simpl.
      rewrite (Counts_below max c (Some e) max_in_range Hc Hlt). simpl.
      unfold spy_timer, spy_worker, timer_on_fst, worker_on_fst; simpl.
      rewrite Hw. simpl. rewrite <- !app_assoc. reflexivity.
    + rewrite !app_assoc, !calls_snoc in Hle, Heq. simpl in Hle, Heq.
      split; [lia |]. split; [| exact Hmax].
      intros Hne. specialize (Heq Hne). lia.
Qed.

Lemma Retry_Counts_run (worker : @Worker E St) (timer : Timer St)
    (fuel : nat) (s : St) :
  (Z.to_nat (max - 1) <= fuel)%nat ->
  exists err st,
    Retry_Counts worker timer max fuel s = Returned err st
    /\ (1 <= calls is_worker (snd st) <= Z.to_nat (Z.max max 1))%nat
    /\ (err <> None -> calls is_worker (snd st) = Z.to_nat (Z.max max 1))
    /\ (err <> None -> max <= snd (fst st)).
Proof.
  intros Hfuel.
  unfold Retry_Counts, Retry_observed, Retry, spy_worker, worker_on_fst.
  simpl. destruct (worker s) as [r s1].
  destruct (loop_Counts_any worker timer (Z.to_nat (max - 1)) fuel r s1
              Counts_init [EvWorker r] ltac:(unfold Counts_init; lia)
              eq_refl Hfuel) as (err & st & Hloop & Hle & Heq & Hmax).
  exists err, st. split; [exact Hloop |].
  change (calls is_worker [EvWorker r]) with 1%nat in Hle, Heq.
  split; [lia |]. split; [| exact Hmax].
  intros Hne. rewrite (Heq Hne). lia.
Qed.

(** X7. [Counts(max)] bounds the attempts whatever the worker does: given
    fuel for [max - 1] iterations, [Retry] returns, having called the worker
    at least once and at most [max] times (once when [max <= 1]); and it
    only returns an error after all of these attempts. *)
Theorem Retry_Counts_bounded (worker : @Worker E St) (timer : Timer St)
    (fuel : nat) (s : St) :
  (Z.to_nat (max - 1) <= fuel)%nat ->
  exists err st,
    Retry_Counts worker timer max fuel s = Returned err st
    /\ (1 <= calls is_worker (snd st) <= Z.to_nat (Z.max max 1))%nat
    /\ (err <> None -> calls is_worker (snd st) = Z.to_nat (Z.max max 1)).
Proof.
  intros Hfuel.
  destruct (Retry_Counts_run worker timer fuel s Hfuel)
    as (err & st & Hrun & Hle & Heq & _).
  exists err, st. auto.
Qed.

End RetryCountsAny.

Lemma Retry_Counts_bounded_witness :
  Int64.in_range 4
  /\ exists err st,
       Retry_Counts (flaky 2) no_wait 4 3 0%nat = Returned err st
       /\ (1 <= calls is_worker (snd st) <= 4)%nat.
Proof.
  assert (H4 : Int64.in_range 4) by (unfold Int64.in_range; split; discriminate).
  split; [exact H4 |].
  destruct (Retry_Counts_bounded 4 H4 (flaky 2) no_wait 3 0%nat
              ltac:(apply Nat.le_refl)) as (err & st & Hrun & Hle & _).
  exists err, st. split; [exact Hrun | exact Hle].
Defined.

Section CountsSpent.

Context {E St : Type}.
Variable max : Z.

(** A [Counts] limiter whose counter has reached [max] stops the loop at
    the first failure. *)
Lemma Retry_Counts_from_reached (worker : @Worker E St) (timer : Timer St)
    (fuel : nat) (s : St) (c : Z) :
  max <= c ->
  Retry_Counts_from worker timer max fuel s c
  = Returned (fst (worker s))
      ((snd (worker s), c),
       match fst (worker s) with
       | None => [EvWorker None]
       | Some e => [EvWorker (Some e); EvLimiter (Some e) false]
       end).
Proof.
  intros Hge.
  unfold Retry_Counts_from, Retry_observed, Retry, spy_worker, worker_on_fst.
  simpl. destruct (worker s) as [[e |] s1]; destruct fuel; simpl;
    unfold spy_limiter, limiter_on_snd; simpl;
    rewrite ?(Counts_reached max c (Some e) Hge); reflexivity.
Qed.

(** The loop only gives up with the counter at [max] or above. *)
Lemma loop_Counts_gave_up (worker : @Worker E St) (timer : Timer St) (fuel : nat) :
  forall (err : @error E) s c tr e st,
    loop_observed (worker_on_fst worker) (limiter_on_snd (Counts max))
      (timer_on_fst timer) fuel err ((s, c), tr) = Returned (Some e) st ->
    max <= snd (fst st).
Proof.
  unfold loop_observed.
  induction fuel as [| fuel IH]; intros err s c tr e st Hr;
    destruct err as [e0 |]; simpl in Hr; try discriminate;
    unfold spy_limiter, limiter_on_snd, Counts in Hr; simpl in Hr;
    destruct (Z.ltb_spec c max) as [Hlt | Hge]; simpl in Hr; try discriminate;
    try (injection Hr as _ <-; exact Hge).
  unfold spy_timer, spy_worker, timer_on_fst, worker_on_fst in Hr. simpl in Hr.
  destruct (worker (timer s)) as [r s3]. simpl in Hr. exact (IH _ _ _ _ _ _ Hr).
Qed.

(** X8. A [Counts] limiter is spent by the run it stops.  When [Retry] has
    returned an error under [Counts(max)], the counter it leaves is at
    [max] or above, so a second [Retry] given the same limiter makes a
    single attempt, whatever its worker and timer: it returns the result of
    that attempt and never calls the timer. *)
Theorem Counts_spent_after_giving_up (worker : @Worker E St) (timer : Timer St)
    (fuel : nat) (s : St) (e : E) (st : (St * Z) * @Trace E) :
  Retry_Counts worker timer max fuel s = Returned (Some e) st ->
  max <= snd (fst st)
  /\ forall (worker' : @Worker E St) (timer' : Timer St) (fuel' : nat),
       let s0 := fst (fst st) in
       Retry_Counts_from worker' timer' max fuel' s0 (snd (fst st))
       = Returned (fst (worker' s0))
           ((snd (worker' s0), snd (fst st)),
            match fst (worker' s0) with
            | None => [EvWorker None]
            | Some e' => [EvWorker (Some e'); EvLimiter (Some e') false]
            end).
Proof.
  intros Hrun.
  assert (Hmax : max <= snd (fst st)).
  { unfold Retry_Counts, Retry_observed, Retry, spy_worker, worker_on_fst in Hrun.
    simpl in Hrun. destruct (worker s) as [r s1]. simpl in Hrun.
    exact (loop_Counts_gave_up worker timer fuel _ _ _ _ _ _ Hrun). }
  split; [exact Hmax |].
  intros worker' timer' fuel' s0. apply Retry_Counts_from_reached. exact Hmax.
Qed.

End CountsSpent.

Lemma Counts_spent_after_giving_up_witness :
  Retry_Counts failing no_wait 2 1 0%nat
  = Returned (Some 1%nat)
      ((2%nat, 2), [EvWorker (Some 0%nat); EvLimiter (Some 0%nat) true; EvTimer;
                    EvWorker (Some 1%nat); EvLimiter (Some 1%nat) false])
  /\ Retry_Counts_from failing no_wait 2 5 2%nat 2
     = Returned (Some 2%nat)
         ((3%nat, 2), [EvWorker (Some 2%nat); EvLimiter (Some 2%nat) false]).
Proof.
  split; [reflexivity |].
  exact (proj2 (Counts_spent_after_giving_up 2 failing no_wait 1 0%nat 1%nat
                  ((2%nat, 2), [EvWorker (Some 0%nat); EvLimiter (Some 0%nat) true;
                                EvTimer; EvWorker (Some 1%nat);
                                EvLimiter (Some 1%nat) false])
                  eq_refl) failing no_wait 5%nat).
Defined.

(** ** Backoff timers in closed form *)

Lemma backoff_delay_succ (base ceil : Z) (n : nat) :
  0 < base -> base <= ceil -> ceil <= 2 ^ 62 ->
  (if backoff_delay base ceil n =? ceil then ceil
   else Z.min (Int64.mul (backoff_delay base ceil n) 2) ceil)
  = backoff_delay base ceil (S n).
Proof.
  intros Hb Hle Hc. unfold backoff_delay.
  rewrite Nat2Z.inj_succ, Z.pow_succ_r by lia.
  assert (Hp : 1 <= 2 ^ Z.of_nat n) by (apply Z.lt_pred_le, Z.pow_pos_nonneg; lia).
  replace (base * (2 * 2 ^ Z.of_nat n)) with (2 * (base * 2 ^ Z.of_nat n)) by ring.
  assert (Hq : base <= base * 2 ^ Z.of_nat n) by nia.
  generalize dependent (base * 2 ^ Z.of_nat n). intros q Hq.
  destruct (Z.eqb_spec (Z.min q ceil) ceil) as [Heq | Hne].
  - lia.
  - assert (Hlt : q < ceil) by lia.
    rewrite (Z.min_l q ceil) by lia.
    unfold Int64.mul. rewrite wrap_in_range; [lia |].
    unfold Int64.in_range, Int64.min_int, Int64.max_int. lia.
Qed.

Lemma MultiplicativeBackoff_closed_form (base ceil : Z) (n : nat) :
  0 < base -> base <= ceil -> ceil <= 2 ^ 62 ->
  calls_of (MultiplicativeBackoff ceil) n (MultiplicativeBackoff_init base)
  = {| dur := backoff_delay base ceil n;
       slept := map (backoff_delay base ceil) (seq 0 n) |}.
Proof.
  intros Hb Hle Hc. induction n as [| n IH].
  - unfold calls_of, MultiplicativeBackoff_init, backoff_delay. simpl.
    rewrite Z.mul_1_r, Z.min_l by lia. reflexivity.
  - rewrite calls_of_succ, IH, MultiplicativeBackoff_call.
    cbn [dur slept]. rewrite backoff_delay_succ by assumption.
    rewrite seq_S, map_app. reflexivity.
Qed.

(** X9. With [0 < base <= ceil <= 2^62] nanoseconds, the [k]-th call of a
    [MultiplicativeBackoff(base, ceil)] timer (counting from 0) sleeps for
    [min(base * 2^k, ceil)], and so does the [k]-th timer created by its
    cancelable variant, whatever woke the earlier waits. *)
Theorem backoff_closed_form (base ceil : Z) :
  0 < base -> base <= ceil -> ceil <= 2 ^ 62 ->
  (forall n,
     calls_of (MultiplicativeBackoff ceil) n (MultiplicativeBackoff_init base)
     = {| dur := backoff_delay base ceil n;
          slept := map (backoff_delay base ceil) (seq 0 n) |})
  /\ (forall ws,
        as_backoff (cancelable_calls ceil ws
                      (CancelableMultiplicativeBackoff_init base))
        = {| dur := backoff_delay base ceil (length ws);
             slept := map (backoff_delay base ceil) (seq 0 (length ws)) |}).
Proof.
  intros Hb Hle Hc. split.
  - intros n. apply MultiplicativeBackoff_closed_form; assumption.
  - intros ws. rewrite as_backoff_calls.
    change (as_backoff (CancelableMultiplicativeBackoff_init base))
      with (MultiplicativeBackoff_init base).
    apply MultiplicativeBackoff_closed_form; assumption.
Qed.

Lemma backoff_closed_form_witness :
  0 < 3 /\ 3 <= 20 /\ 20 <= 2 ^ 62
  /\ slept (calls_of (MultiplicativeBackoff 20) 5 (MultiplicativeBackoff_init 3))
     = [3; 6; 12; 20; 20].
Proof.
  assert (H1 : 0 < 3) by reflexivity.
  assert (H2 : 3 <= 20) by discriminate.
  assert (H3 : 20 <= 2 ^ 62) by discriminate.
  split; [exact H1 |]. split; [exact H2 |]. split; [exact H3 |].
  rewrite (proj1 (backoff_closed_form 3 20 H1 H2 H3) 5%nat). reflexivity.
Defined.

(** After a call the stored delay is never above the ceiling. *)
Lemma MultiplicativeBackoff_le_ceiling (ceil : Z) (st : Backoff) :
  dur (MultiplicativeBackoff ceil st) <= ceil.
Proof.
  rewrite MultiplicativeBackoff_call. simpl.
  destruct (dur st =? ceil); lia.
Qed.

Lemma MultiplicativeBackoff_later_sleeps (base ceil : Z) (n : nat) :
  let st := calls_of (MultiplicativeBackoff ceil) (S n)
              (MultiplicativeBackoff_init base) in
  dur st <= ceil
  /\ exists rest, slept st = base :: rest /\ Forall (fun d => d <= ceil) rest.
Proof.
  induction n as [| n IH].
  - simpl. split; [apply MultiplicativeBackoff_le_ceiling |].
    exists []. split; [| constructor].
    rewrite MultiplicativeBackoff_call. reflexivity.
  - rewrite calls_of_succ. destruct IH as (Hd & rest & Hs & Hall).
    split; [apply MultiplicativeBackoff_le_ceiling |].
    exists (rest ++ [dur (calls_of (MultiplicativeBackoff ceil) (S n)
                            (MultiplicativeBackoff_init base))]).
    split.
    + rewrite MultiplicativeBackoff_call. cbn [slept]. rewrite Hs. reflexivity.
    + apply Forall_app. split; [exact Hall |]. constructor; [exact Hd | constructor].
Qed.

(** X10. Whatever the base and the ceiling, negative or overflowing
    included, only the first wait can exceed the ceiling: every call of a
    backoff timer after the first sleeps for at most the ceiling, and so
    does every timer created by the cancelable variant after its first. *)
Theorem backoff_never_above_ceiling (base ceil : Z) :
  (forall n,
     Forall (fun d => d <= ceil)
       (tl (slept (calls_of (MultiplicativeBackoff ceil) n
                     (MultiplicativeBackoff_init base)))))
  /\ (forall ws,
        Forall (fun d => d <= ceil)
          (tl (map fst (waited (cancelable_calls ceil ws
                                  (CancelableMultiplicativeBackoff_init base)))))).
Proof.
  assert (H : forall n,
             Forall (fun d => d <= ceil)
               (tl (slept (calls_of (MultiplicativeBackoff ceil) n
                             (MultiplicativeBackoff_init base))))).
  { intros [| n]; [constructor |].
    destruct (MultiplicativeBackoff_later_sleeps base ceil n)
      as (_ & rest & Hs & Hall).
    rewrite Hs. exact Hall. }
  split; [exact H |].
  intros ws.
  change (map fst (waited (cancelable_calls ceil ws
                             (CancelableMultiplicativeBackoff_init base))))
    with (slept (as_backoff (cancelable_calls ceil ws
                               (CancelableMultiplicativeBackoff_init base)))).
  rewrite as_backoff_calls. apply H.
Qed.

(** X11. A zero base never escalates: under any non-negative ceiling, a
    backoff timer created with base 0 sleeps for 0 at every call, and its
    cancelable variant only creates timers of duration 0. *)
Theorem backoff_zero_base (ceil : Z) :
  0 <= ceil ->
  (forall n,
     calls_of (MultiplicativeBackoff ceil) n (MultiplicativeBackoff_init 0)
     = {| dur := 0; slept := repeat 0 n |})
  /\ (forall ws,
        as_backoff (cancelable_calls ceil ws (CancelableMultiplicativeBackoff_init 0))
        = {| dur := 0; slept := repeat 0 (length ws) |}).
Proof.
  intros Hc.
  assert (H : forall n,
             calls_of (MultiplicativeBackoff ceil) n (MultiplicativeBackoff_init 0)
             = {| dur := 0; slept := repeat 0 n |}).
  { induction n as [| n IH]; [reflexivity |].
    rewrite calls_of_succ, IH, MultiplicativeBackoff_call. cbn [dur slept].
    rewrite repeat_snoc. f_equal.
    destruct (Z.eqb_spec 0 ceil) as [<- | Hne]; [reflexivity |].
    change (Int64.mul 0 2) with 0. lia. }
  split; [exact H |].
  intros ws. rewrite as_backoff_calls. apply H.
Qed.

Lemma backoff_zero_base_witness :
  0 <= 8
  /\ calls_of (MultiplicativeBackoff 8) 3 (MultiplicativeBackoff_init 0)
     = {| dur := 0; slept := [0; 0; 0] |}.
Proof.
  assert (H8 : 0 <= 8) by discriminate.
  split; [exact H8 |].
  exact (proj1 (backoff_zero_base 8 H8) 3%nat).
Defined.

(** ** A bounded retry with a timer of its own *)

Section RetryCountsTimer.

Context {E A B : Type}.
Variable worker : @Worker E A.
Variable timer : Timer B.
Variable max : Z.

Hypothesis always_fails : forall a, fst (worker a) <> None.
Hypothesis max_in_range : Int64.in_range max.

Lemma iter_shift (k : nat) (b : B) :
  Nat.iter k timer (timer b) = Nat.iter (S k) timer b.
Proof.
  induction k as [| k IH]; [reflexivity |].
  simpl in *. rewrite IH. reflexivity.
Qed.

(** The worker acts on [A], the timer on [B], the limiter on its counter. *)
Lemma loop_Counts_timer (k : nat) :
  forall fuel e a b c tr,
    1 <= c -> Z.to_nat (max - c) = k -> (k <= fuel)%nat ->
    exists e' st,
      loop_observed (worker_on_fst (worker_on_fst worker))
        (limiter_on_snd (Counts max)) (timer_on_fst (timer_on_snd timer))
        fuel (Some e) (((a, b), c), tr) = Returned (Some e') st
      /\ snd (fst (fst st)) = calls_of timer k b
      /\ calls is_timer (snd st) = (calls is_timer tr + k)%nat.
Proof.
  unfold loop_observed, calls_of.
  induction k as [| k IH]; intros fuel e a b c tr Hc Hk Hfuel.
  - assert (Hge : max <= c) by lia.
    exists e, (((a, b), c), tr ++ [EvLimiter (Some e) false]). split.
    + destruct fuel; simpl; unfold spy_limiter, limiter_on_snd; simpl;
        rewrite (Counts_reached max c (Some e) Hge); reflexivity.
    + simpl. rewrite calls_snoc. simpl. split; [reflexivity | lia].
  - assert (Hlt : c < max) by lia.
    destruct fuel as [| fuel]; [lia |].
    destruct (worker a) as [r a3] eqn:Hw.
    destruct r as [e1 |];
      [| exfalso; apply (always_fails a); rewrite Hw; reflexivity].
    destruct (IH fuel e1 a3 (timer b) (c + 1)
                (tr ++ [EvLimiter (Some e) true] ++ [EvTimer] ++ [EvWorker (Some e1)])
                ltac:(lia) ltac:(lia) ltac:(lia)) as (e' & st & Hrun & Hb & Hcalls).
    exists e', st. split; [| split].
    + rewrite <- Hrun. simpl.
      unfold spy_limiter, limiter_on_snd; simpl.
      rewrite (Counts_below max c (Some e) max_in_range Hc Hlt). simpl.
      unfold spy_timer, spy_worker, timer_on_fst, timer_on_snd, worker_on_fst; simpl.
      rewrite Hw. simpl. rewrite <- !app_assoc. reflexivity.
    + rewrite Hb. apply iter_shift.
    + rewrite Hcalls, !app_assoc, !calls_snoc. simpl. lia.
Qed.

Lemma Retry_Counts_timer_run (fuel : nat) (a : A) (b : B) :
  (Z.to_nat (max - 1) <= fuel)%nat ->
  exists e st,
    Retry_Counts (worker_on_fst worker) (timer_on_snd timer) max fuel (a, b)
    = Returned (Some e) st
    /\ calls is_timer (snd st) = Z.to_nat (max - 1)
    /\ snd (fst (fst st)) = calls_of timer (Z.to_nat (max - 1)) b.
Proof.
  intros Hfuel.
  unfold Retry_Counts, Retry_observed, Retry, spy_worker, worker_on_fst.
  simpl. destruct (worker a) as [r a1] eqn:Hw.
  destruct r as [e0 |];
    [| exfalso; apply (always_fails a); rewrite Hw; reflexivity].
  destruct (loop_Counts_timer (Z.to_nat (max - 1)) fuel e0 a1 b Counts_init
              [EvWorker (Some e0)] ltac:(unfold Counts_init; lia)
              eq_refl Hfuel) as (e & st & Hloop & Hb & Hcalls).
  exists e, st. split; [exact Hloop |]. split; [exact Hcalls | exact Hb].
Qed.

(** X12. In [Retry(worker, Counts(max), timer)] with a worker that always
    fails, the timer is called exactly [max - 1] times (never when
    [max <= 1]) and nothing else touches what it captured: when [Retry]
    returns, the timer's state is the one that [max - 1] successive calls
    produce from its initial state. *)
Theorem Retry_Counts_timer_calls (fuel : nat) (a : A) (b : B) :
  (Z.to_nat (max - 1) <= fuel)%nat ->
  exists e st,
    Retry_Counts (worker_on_fst worker) (timer_on_snd timer) max fuel (a, b)
    = Returned (Some e) st
    /\ calls is_timer (snd st) = Z.to_nat (max - 1)
    /\ snd (fst (fst st)) = calls_of timer (Z.to_nat (max - 1)) b.
Proof. exact (Retry_Counts_timer_run fuel a b). Qed.

End RetryCountsTimer.

(** X13. A bounded retry of an always-failing worker with a
    [MultiplicativeBackoff(base, ceil)] timer, [0 < base <= ceil <= 2^62]:
    when [Retry] returns its error, it has slept [max - 1] times, for
    [min(base * 2^k, ceil)] after attempt [k + 1]. *)
Theorem Retry_Counts_backoff_sleeps {E A : Type} (worker : @Worker E A)
    (max base ceil : Z) (fuel : nat) (a : A) :
  (forall a0, fst (worker a0) <> None) ->
  Int64.in_range max ->
  0 < base -> base <= ceil -> ceil <= 2 ^ 62 ->
  (Z.to_nat (max - 1) <= fuel)%nat ->
  exists e st,
    Retry_Counts (worker_on_fst worker) (timer_on_snd (MultiplicativeBackoff ceil))
      max fuel (a, MultiplicativeBackoff_init base) = Returned (Some e) st
    /\ slept (snd (fst (fst st)))
       = map (backoff_delay base ceil) (seq 0 (Z.to_nat (max - 1))).
Proof.
  intros Hfail Hmax Hb Hle Hc Hfuel.
  destruct (Retry_Counts_timer_run worker (MultiplicativeBackoff ceil) max
              Hfail Hmax fuel a (MultiplicativeBackoff_init base) Hfuel)
    as (e & st & Hrun & _ & Hst).
  exists e, st. split; [exact Hrun |].
  rewrite Hst, MultiplicativeBackoff_closed_form by assumption. reflexivity.
Qed.

Lemma Retry_Counts_timer_calls_witness :
  (forall n : nat, fst (failing n) <> None)
  /\ Int64.in_range 3
  /\ exists e st,
       Retry_Counts (worker_on_fst failing) (timer_on_snd (MultiplicativeBackoff 4))
         3 2 (0%nat, MultiplicativeBackoff_init 1) = Returned (Some e) st
       /\ calls is_timer (snd st) = 2%nat.
Proof.
  assert (Hf : forall n : nat, fst (failing n) <> None) by (intros n; discriminate).
  assert (H3 : Int64.in_range 3) by (unfold Int64.in_range; split; discriminate).
  split; [exact Hf |]. split; [exact H3 |].
  destruct (Retry_Counts_timer_calls failing (MultiplicativeBackoff 4) 3 Hf H3
              2 0%nat (MultiplicativeBackoff_init 1) (le_n 2))
    as (e & st & Hrun & Hcalls & _).
  exists e, st. split; [exact Hrun | exact Hcalls].
Defined.

Lemma Retry_Counts_backoff_sleeps_witness :
  (forall n : nat, fst (failing n) <> None)
  /\ Int64.in_range 5
  /\ 0 < 3 /\ 3 <= 10 /\ 10 <= 2 ^ 62
  /\ exists e st,
       Retry_Counts (worker_on_fst failing) (timer_on_snd (MultiplicativeBackoff 10))
         5 4 (0%nat, MultiplicativeBackoff_init 3) = Returned (Some e) st
       /\ slept (snd (fst (fst st))) = [3; 6; 10; 10].
Proof.
  assert (Hf : forall n : nat, fst (failing n) <> None) by (intros n; discriminate).
  assert (H5 : Int64.in_range 5) by (unfold Int64.in_range; split; discriminate).
  assert (H1 : 0 < 3) by reflexivity.
  assert (H2 : 3 <= 10) by discriminate.
  assert (H3 : 10 <= 2 ^ 62) by discriminate.
  split; [exact Hf |]. split; [exact H5 |].
  split; [exact H1 |]. split; [exact H2 |]. split; [exact H3 |].
  destruct (Retry_Counts_backoff_sleeps failing 5 3 10 4 0%nat Hf H5 H1 H2 H3 (le_n 4))
    as (e & st & Hrun & Hs).
  exists e, st. split; [exact Hrun | exact Hs].
Defined.

(** ** [Counts] of one or less *)

(** X14. Zero is treated the same as one, and so is every negative bound:
    with [max <= 1], [Retry] under [Counts(max)] makes the calls it makes
    under [Once], for every worker and timer: a single attempt, whose
    result it returns, and no call of the timer. *)
Theorem Retry_Counts_at_most_one {E St : Type} (worker : @Worker E St)
    (timer : Timer St) (max : Z) (fuel : nat) (s : St) :
  max <= 1 ->
  trace_of (Retry_Counts worker timer max fuel s)
  = trace_of (Retry_observed worker Once timer fuel s)
  /\ outcome_map (fun st => fst (fst st)) (Retry_Counts worker timer max fuel s)
     = Retry worker Once timer fuel s.
Proof.
  intros Hle.
  change (Retry_Counts worker timer max fuel s)
    with (Retry_Counts_from worker timer max fuel s Counts_init).
  rewrite Retry_Counts_from_reached by (unfold Counts_init; lia).
  unfold Retry_observed, Retry, spy_worker, trace_of. simpl.
  destruct (worker s) as [[e |] s1]; destruct fuel; split; reflexivity.
Qed.

Lemma Retry_Counts_at_most_one_witness :
  -3 <= 1
  /\ trace_of (Retry_Counts failing no_wait (-3) 6 0%nat)
     = [EvWorker (Some 0%nat); EvLimiter (Some 0%nat) false].
Proof.
  assert (H : -3 <= 1) by discriminate.
  split; [exact H |].
  rewrite (proj1 (Retry_Counts_at_most_one failing no_wait (-3) 6 0%nat H)).
  reflexivity.
Defined.
